(** * TinyYolov2: anchor-grid decoding, score filtering and training loss

    A shallow embedding of [src/tinyYolov2/TinyYolov2.ts].

    Numbers.  A JavaScript [number] is modelled as a real number ([R]):
    [Math.exp] is [exp], [Math.max] is [Rmax], and arithmetic is exact.
    Rounding, overflow to [Infinity] and [NaN] are outside the model.
    An optional number ([scoreThreshold?: number]) is an [option R], and a
    number used as a condition is false exactly when it is [0] (or absent).

    Tensors.  A [tf.Tensor] is a shape together with its entries, indexed by
    the list of coordinates ([Tensor.get]).  The operations of tfjs-core that
    the class calls are given their library meaning: [reshape] keeps the
    row-major order of the entries and fails when the sizes differ, [slice]
    shifts the coordinates, element-wise operations broadcast, [softmax]
    normalises exponentials along the last axis, [sum] adds all entries.

    Errors.  A [throw] is the [Err] result of the error monad [Result];
    statements run in the order of the source, so the first error wins. *)

From Stdlib Require Import Reals Lra Lia List Arith Bool String.
Import ListNotations.
Open Scope R_scope.

Set Implicit Arguments.

(** ** The error monad *)

Inductive Result (A : Type) : Type :=
| Ok (a : A)
| Err (msg : string).

Arguments Ok {A} a.
Arguments Err {A} msg.

Definition bind {A B : Type} (r : Result A) (k : A -> Result B) : Result B :=
  match r with
  | Ok a => k a
  | Err msg => Err msg
  end.

Notation "x <- c ;; k" := (bind c (fun x => k))
  (at level 61, c at next level, right associativity).

(** A loop that pushes the results of each round to one array and stops at
    the first error. *)
Fixpoint concatMapM {A B : Type} (f : A -> Result (list B)) (l : list A)
  : Result (list B) :=
  match l with
  | [] => Ok []
  | a :: tl =>
      bs <- f a ;;
      rest <- concatMapM f tl ;;
      Ok (bs ++ rest)
  end.

(** [Array.prototype.reduce] without an initial value: the first element
    starts the accumulator, and an empty array is a [TypeError]. *)
Definition js_reduce {A : Type} (f : A -> A -> A) (l : list A) : Result A :=
  match l with
  | [] => Err "Reduce of empty array with no initial value"
  | a :: tl => Ok (fold_left f tl a)
  end.

(** ** Tensors (tfjs-core) *)

Record Tensor : Type := mkTensor {
  shape : list nat;
  entry : list nat -> R
}.

Definition sizeOf (s : list nat) : nat := fold_right Nat.mul 1%nat s.

(** Row-major position of a coordinate list, and back. *)
Fixpoint ravel (s idx : list nat) : nat :=
  match s, idx with
  | _ :: s', i :: idx' => (i * sizeOf s' + ravel s' idx')%nat
  | _, _ => 0%nat
  end.

Fixpoint unravel (s : list nat) (pos : nat) : list nat :=
  match s with
  | [] => []
  | _ :: s' => (pos / sizeOf s')%nat :: unravel s' (pos mod sizeOf s')
  end.

Definition tget (t : Tensor) (i j k l : nat) : R := entry t [i; j; k; l].

Definition tf_scalar (v : R) : Tensor := mkTensor [] (fun _ => v).

Definition tf_reshape (t : Tensor) (newShape : list nat) : Result Tensor :=
  if (sizeOf newShape =? sizeOf (shape t))%nat
  then Ok (mkTensor newShape
             (fun idx => entry t (unravel (shape t) (ravel newShape idx))))
  else Err "Size(s) don't match"%string.

Fixpoint sliceFits (begin size s : list nat) : bool :=
  match begin, size, s with
  | [], [], [] => true
  | b :: begin', z :: size', d :: s' =>
      (b + z <=? d)%nat && sliceFits begin' size' s'
  | _, _, _ => false
  end.

Fixpoint shiftBy (begin idx : list nat) : list nat :=
  match begin, idx with
  | b :: begin', i :: idx' => (b + i)%nat :: shiftBy begin' idx'
  | _, _ => idx
  end.

Definition tf_slice (t : Tensor) (begin size : list nat) : Result Tensor :=
  if sliceFits begin size (shape t)
  then Ok (mkTensor size (fun idx => entry t (shiftBy begin idx)))
  else Err "slice out of the bounds of the tensor"%string.

Definition Rsum (l : list R) : R := fold_right Rplus 0 l.

Definition setLast (idx : list nat) (k : nat) : list nat :=
  removelast idx ++ [k].

(** [tf.softmax(logits, dim)]: only the last axis is supported. *)
Definition tf_softmax (t : Tensor) (dim : nat) : Result Tensor :=
  if (S dim =? List.length (shape t))%nat
  then Ok (mkTensor (shape t)
             (fun idx =>
                exp (entry t idx) /
                Rsum (map (fun k => exp (entry t (setLast idx k)))
                          (seq 0 (last (shape t) 0%nat)))))
  else Err "Softmax along a non-last dimension is not yet supported"%string.

Definition tf_map (f : R -> R) (t : Tensor) : Tensor :=
  mkTensor (shape t) (fun idx => f (entry t idx)).

(** Broadcasting, on shapes and coordinates read from the last axis. *)
Fixpoint broadcastRev (a b : list nat) : option (list nat) :=
  match a, b with
  | [], _ => Some b
  | _, [] => Some a
  | da :: a', db :: b' =>
      match broadcastRev a' b' with
      | None => None
      | Some r =>
          if (da =? db)%nat then Some (da :: r)
          else if (da =? 1)%nat then Some (db :: r)
          else if (db =? 1)%nat then Some (da :: r)
          else None
      end
  end.

Fixpoint pickRev (s idx : list nat) : list nat :=
  match s, idx with
  | d :: s', i :: idx' => (if (d =? 1)%nat then 0%nat else i) :: pickRev s' idx'
  | _, _ => []
  end.

Definition pick (s idx : list nat) : list nat :=
  rev (pickRev (rev s) (rev idx)).

Definition tf_binary (op : R -> R -> R) (a b : Tensor) : Result Tensor :=
  match broadcastRev (rev (shape a)) (rev (shape b)) with
  | Some r =>
      Ok (mkTensor (rev r)
            (fun idx => op (entry a (pick (shape a) idx))
                           (entry b (pick (shape b) idx))))
  | None => Err "Operands could not be broadcast together"%string
  end.

Definition tf_mul : Tensor -> Tensor -> Result Tensor := tf_binary Rmult.
Definition tf_sub : Tensor -> Tensor -> Result Tensor := tf_binary Rminus.
Definition tf_add : Tensor -> Tensor -> Result Tensor := tf_binary Rplus.

Definition tf_square : Tensor -> Tensor := tf_map (fun v => v * v).

(** All coordinate lists of a shape, in row-major order. *)
Fixpoint coords (s : list nat) : list (list nat) :=
  match s with
  | [] => [[]]
  | d :: s' => flat_map (fun i => map (cons i) (coords s')) (seq 0 d)
  end.

Definition sumAll (t : Tensor) : R := Rsum (map (entry t) (coords (shape t))).

Definition tf_sum (t : Tensor) : Tensor := tf_scalar (sumAll t).

(** The value of a rank-0 tensor ([dataSync()[0]]). *)
Definition scalarValue (t : Tensor) : R := entry t [].

(** ** Data of the detector *)

Module Point.
Record t : Type := mk { x : R; y : R }.
End Point.

Record Dimensions : Type := mkDimensions { width : R; height : R }.

(** [Point] and [Dimensions] are the types of [../types], with the fields
    that the class reads. *)

(** Modelled from the spec: the class [BoundingBox] ([../BoundingBox]) is
    not part of the sources at hand.  The spec gives a decoded box as the
    four coordinates [(x1, y1, x2, y2)], which the constructor receives in
    this order. *)
Record BoundingBox : Type := mkBoundingBox {
  left : R;
  top : R;
  right : R;
  bottom : R
}.

(** Modelled from the spec: [BoundingBox.rescale] is not part of the
    sources at hand; the spec has it "rescale boxes to the detector's
    configured working resolution", here by scaling the four coordinates. *)
Definition rescale (b : BoundingBox) (s : R) : BoundingBox :=
  mkBoundingBox (left b * s) (top b * s) (right b * s) (bottom b * s).

(** Modelled from the spec: [sigmoid] ([../utils]) is not part of the
    sources at hand; the spec calls it "the logistic function". *)
Definition sigmoid (v : R) : R := 1 / (1 + exp (- v)).

(** The configuration ([./config]), with the fields that the class reads;
    an optional field is an [option]. *)
Module Config.
Record t : Type := mk {
  withSeparableConvs : bool;
  iouThreshold : R;
  anchors : list Point.t;
  classes : list string;
  meanRgb : option (R * R * R);
  withClassScores : option bool
}.
End Config.

Definition TinyYolov2Config : Type := Config.t.

(** One entry of the array that [extractBoxes] returns. *)
Record ExtractedBox : Type := mkExtractedBox {
  box : BoundingBox;
  score : R;
  classLabel : nat;
  row : nat;
  col : nat;
  anchor : nat
}.

Record PredictedClass : Type := mkPredictedClass {
  pcScore : R;
  pcLabel : nat
}.

(** ** Getters of the class *)

(** [config.withClassScores || config.classes.length > 1] *)
Definition withClassScores (config : TinyYolov2Config) : bool :=
  match Config.withClassScores config with
  | Some true => true
  | _ => (1 <? List.length (Config.classes config))%nat
  end.

Definition boxEncodingSize (config : TinyYolov2Config) : nat :=
  (5 + (if withClassScores config
        then List.length (Config.classes config)
        else 0))%nat.

(** ** Decoding: [extractBoxes] *)

(** [!scoreThreshold || score > scoreThreshold] *)
Definition passesThreshold (scoreThreshold : option R) (s : R) : bool :=
  match scoreThreshold with
  | None => true
  | Some t =>
      if Req_EM_T t 0 then true
      else if Rgt_dec s t then true else false
  end.

Definition extractPredictedClass (config : TinyYolov2Config)
    (classesTensor : Tensor) (row col anchor : nat) : Result PredictedClass :=
  let scores :=
    map (fun i => tget classesTensor row col anchor i)
        (seq 0 (List.length (Config.classes config))) in
  let labelled :=
    map (fun p => mkPredictedClass (fst p) (snd p))
        (combine scores (seq 0 (List.length scores))) in
  js_reduce
    (fun max curr => if Rgt_dec (pcScore max) (pcScore curr) then max else curr)
    labelled.

(** The body of the innermost loop of [extractBoxes]: what the slot
    [(row, col, anchor)] pushes to [results]. *)
Definition extractSlot (config : TinyYolov2Config)
    (boxesTensor scoresTensor classScoresTensor : Tensor)
    (numCells : nat) (correctionFactorX correctionFactorY : R)
    (scoreThreshold : option R) (row col anchor : nat)
  : Result (list ExtractedBox) :=
  let score := sigmoid (tget scoresTensor row col anchor 0) in
  if passesThreshold scoreThreshold score then
    let prior := nth anchor (Config.anchors config) (Point.mk 0 0) in
    let ctX := ((INR col + sigmoid (tget boxesTensor row col anchor 0))
                / INR numCells) * correctionFactorX in
    let ctY := ((INR row + sigmoid (tget boxesTensor row col anchor 1))
                / INR numCells) * correctionFactorY in
    let width := ((exp (tget boxesTensor row col anchor 2) * Point.x prior)
                  / INR numCells) * correctionFactorX in
    let height := ((exp (tget boxesTensor row col anchor 3) * Point.y prior)
                   / INR numCells) * correctionFactorY in
    let x := ctX - (width / 2) in
    let y := ctY - (height / 2) in
    pc <- (if withClassScores config
           then extractPredictedClass config classScoresTensor row col anchor
           else Ok (mkPredictedClass 1 0)) ;;
    Ok [ mkExtractedBox (mkBoundingBox x y (x + width) (y + height))
                        (score * pcScore pc) (pcLabel pc) row col anchor ]
  else Ok [].

Definition extractBoxes (config : TinyYolov2Config) (outputTensor : Tensor)
    (inputBlobDimensions : Dimensions) (scoreThreshold : option R)
  : Result (list ExtractedBox) :=
  let inputSize :=
    Rmax (width inputBlobDimensions) (height inputBlobDimensions) in
  let correctionFactorX := inputSize / width inputBlobDimensions in
  let correctionFactorY := inputSize / height inputBlobDimensions in
  let numCells := nth 1 (shape outputTensor) 0%nat in
  let numBoxes := List.length (Config.anchors config) in
  reshaped <- tf_reshape outputTensor
                [numCells; numCells; numBoxes; boxEncodingSize config] ;;
  boxesTensor <- tf_slice reshaped [0; 0; 0; 0]%nat
                   [numCells; numCells; numBoxes; 4%nat] ;;
  scoresTensor <- tf_slice reshaped [0; 0; 0; 4]%nat
                    [numCells; numCells; numBoxes; 1%nat] ;;
  classScoresTensor <-
    (if withClassScores config
     then sliced <- tf_slice reshaped [0; 0; 0; 5]%nat
                      [numCells; numCells; numBoxes;
                       List.length (Config.classes config)] ;;
          tf_softmax sliced 3
     else Ok (tf_scalar 0)) ;;
  concatMapM (fun row =>
    concatMapM (fun col =>
      concatMapM (fun anchor =>
        extractSlot config boxesTensor scoresTensor classScoresTensor
          numCells correctionFactorX correctionFactorY scoreThreshold
          row col anchor)
        (seq 0 numBoxes))
      (seq 0 numCells))
    (seq 0 numCells).

(** ** Suppression of overlapping boxes *)

(** Modelled from the spec: the area of a box, for the IoU below. *)
Definition area (b : BoundingBox) : R :=
  (right b - left b) * (bottom b - top b).

(** Modelled from the spec: the IoU helper is not part of the sources at
    hand; the spec calls it the "overlap ratio between two boxes"
    (intersection over union). *)
Definition iou (a b : BoundingBox) : R :=
  let w := Rmax 0 (Rmin (right a) (right b) - Rmax (left a) (left b)) in
  let h := Rmax 0 (Rmin (bottom a) (bottom b) - Rmax (top a) (top b)) in
  let inter := w * h in
  inter / (area a + area b - inter).

(** Modelled from the spec: the greedy loop of the suppression.  The best
    remaining candidate survives and removes the candidates it suppresses,
    until none remains. *)
Section Greedy.

Variable A : Type.
Variable scoreOf : A -> R.
Variable suppresses : A -> A -> bool.

(** The first candidate of highest score, and the others in their order. *)
Fixpoint popBest (l : list A) : option (A * list A) :=
  match l with
  | [] => None
  | c :: tl =>
      match popBest tl with
      | None => Some (c, [])
      | Some (m, rest) =>
          if Rlt_dec (scoreOf c) (scoreOf m)
          then Some (m, c :: rest)
          else Some (c, tl)
      end
  end.

Fixpoint greedy (fuel : nat) (l : list A) : list A :=
  match fuel with
  | O => []
  | S fuel' =>
      match popBest l with
      | None => []
      | Some (best, rest) =>
          best :: greedy fuel' (filter (fun c => negb (suppresses best c)) rest)
      end
  end.

End Greedy.

(** A candidate of the suppression: its index, its box and its score. *)
Definition Candidate : Type := (nat * (BoundingBox * R))%type.

Definition candScore (c : Candidate) : R := snd (snd c).

Definition overlaps (iouThreshold : R) (a b : BoundingBox) : bool :=
  if Rgt_dec (iou a b) iouThreshold then true else false.

(** Modelled from the spec: [nonMaxSuppression] ([../commons]) is not part
    of the sources at hand.  The spec describes it as the "generic greedy
    box-suppression algorithm" that takes boxes, scores and an IoU
    threshold and returns the surviving indices "ordered by descending
    score", removing "lower-scoring overlapping detections in favor of
    higher-scoring ones".  The last argument selects no behaviour: the
    function never sees a class. *)
Definition nonMaxSuppression (boxes : list BoundingBox) (scores : list R)
    (iouThreshold : R) (classAgnostic : bool) : list nat :=
  let cands : list Candidate :=
    combine (seq 0 (List.length boxes)) (combine boxes scores) in
  map fst
    (greedy candScore
       (fun best c => overlaps iouThreshold (fst (snd best)) (fst (snd c)))
       (List.length cands) cands).

(** ** Collaborators

    The parts of the repository that the class imports and that the spec
    leaves to "external collaborators": image ingestion ([toNetInput],
    [NetInput]), the convolutional stack with its parameters, the defaults
    of the forward parameters, and the helpers of the training loss. *)

(** The forward parameters ([./types]): [inputSize] is a number or the name
    of a preset, and both fields are optional. *)
Record TinyYolov2ForwardParams : Type := mkForwardParams {
  inputSize : option (R + string);
  scoreThreshold : option R
}.

(** What [computeLoss] reads from the result of [validateTrainConfig]. *)
Record TrainConfig : Type := mkTrainConfig {
  noObjectScale : R;
  objectScale : R;
  coordScale : R;
  classScale : R
}.

(** Modelled from the spec: the type [GroundTruthWithGridPosition]
    ([./types]) is not part of the sources at hand; the spec gives an
    assignment as "a (row, col, anchor) triple bound to one ground-truth
    box", which carries its box and class label. *)
Module GroundTruthWithGridPosition.
Record t : Type := mk {
  row : nat;
  col : nat;
  anchor : nat;
  box : BoundingBox;
  classLabel : nat
}.
End GroundTruthWithGridPosition.

Record Collaborators : Type := mkCollaborators {
  NetParams : Type;
  TNetInput : Type;
  NetInput : Type;
  Rect : Type;
  GroundTruth : Type;
  toNetInput : TNetInput -> bool -> Result NetInput;
  getInputWidth : NetInput -> nat -> R;
  getInputHeight : NetInput -> nat -> R;
  (* the reshaped dimensions follow the size of the last [toBatchTensor] *)
  getReshapedInputDimensions : NetInput -> R -> nat -> Dimensions;
  (* lines 59-79: batch tensor, normalisation and the nine layers *)
  runLayers : TinyYolov2Config -> NetParams -> NetInput -> R -> Result Tensor;
  getDefaultParams : TinyYolov2ForwardParams -> TinyYolov2ForwardParams;
  INPUT_SIZES : string -> option R;
  toRect : BoundingBox -> Rect;
  validateTrainConfig : TinyYolov2Config -> Result TrainConfig;
  assignGroundTruthToAnchors :
    list GroundTruth -> list Point.t -> Dimensions ->
    Result (list GroundTruthWithGridPosition.t);
  createGroundTruthMask :
    list GroundTruthWithGridPosition.t -> R -> nat -> nat -> Tensor;
  createCoordAndScoreMasks : R -> nat -> nat -> Tensor * Tensor;
  computeIous :
    list ExtractedBox -> list GroundTruthWithGridPosition.t -> Dimensions ->
    Tensor;
  computeBoxAdjustments :
    list GroundTruthWithGridPosition.t -> list Point.t -> Dimensions -> Tensor;
  createOneHotClassScoreMask :
    list GroundTruthWithGridPosition.t -> nat -> nat -> nat -> Tensor
}.

(** Modelled from the spec: [validateConfig] ([./config]) is not part of
    the sources at hand.  The spec has the construction fail "if
    configuration declares zero anchors or a non-positive class count when
    class scores are required". *)
Definition validateConfig (config : TinyYolov2Config) : Result unit :=
  match Config.anchors config with
  | [] => Err "invalid anchors"
  | _ :: _ =>
      if withClassScores config
         && (List.length (Config.classes config) =? 0)%nat
      then Err "invalid classes"
      else Ok tt
  end.

(** The instance: its configuration and the parameters of the network,
    absent until a model is loaded. *)
Record TinyYolov2 (E : Collaborators) : Type := mkTinyYolov2 {
  config : TinyYolov2Config;
  params : option (NetParams E)
}.

Definition construct (E : Collaborators) (config : TinyYolov2Config)
  : Result (TinyYolov2 E) :=
  _ <- validateConfig config ;;
  Ok (mkTinyYolov2 E config None).

(** The four arguments of [new ObjectDetection(...)]. *)
Record ObjectDetection (E : Collaborators) : Type := mkObjectDetection {
  odScore : R;
  odClassName : option string;
  odBox : Rect E;
  odImageDims : Dimensions
}.

(** ** Inference: [forwardInput] and [detect] *)

Definition forwardInput (E : Collaborators) (self : TinyYolov2 E)
    (input : NetInput E) (inputSize : R) : Result Tensor :=
  match params self with
  | None => Err "TinyYolov2 - load model before inference"
  | Some p => runLayers E (config self) p input inputSize
  end.

(** [tf.unstack] along the first axis, and [expandDims] at the front. *)
Definition tf_unstack (t : Tensor) : list Tensor :=
  match shape t with
  | [] => []
  | d :: s =>
      map (fun i => mkTensor s (fun idx => entry t (i :: idx))) (seq 0 d)
  end.

Definition expandDims (t : Tensor) : Tensor :=
  mkTensor (1%nat :: shape t) (fun idx => entry t (tl idx)).

(** [tf.unstack(out)[0].expandDims()] *)
Definition firstOfBatch (out : Tensor) : Result Tensor :=
  match tf_unstack out with
  | [] => Err "Cannot read properties of undefined"
  | first :: _ => Ok (expandDims first)
  end.

(** [typeof _inputSize === 'string' ? INPUT_SIZES[_inputSize] : _inputSize],
    which is a number or [undefined]. *)
Definition resolveInputSize (E : Collaborators)
    (_inputSize : option (R + string)) : option R :=
  match _inputSize with
  | Some (inr name) => INPUT_SIZES E name
  | Some (inl n) => Some n
  | None => None
  end.

Definition detect (E : Collaborators) (self : TinyYolov2 E)
    (input : TNetInput E) (forwardParams : TinyYolov2ForwardParams)
  : Result (list (ObjectDetection E)) :=
  let defaulted := getDefaultParams E forwardParams in
  let _inputSize := inputSize defaulted in
  let scoreThreshold := scoreThreshold defaulted in
  match resolveInputSize E _inputSize with
  | None => Err "TinyYolov2 - unknown inputSize"
  | Some inputSize =>
      netInput <- toNetInput E input true ;;
      out <- forwardInput self netInput inputSize ;;
      out0 <- firstOfBatch out ;;
      let inputDimensions :=
        mkDimensions (getInputWidth E netInput 0) (getInputHeight E netInput 0) in
      results <- extractBoxes (config self) out0
                   (getReshapedInputDimensions E netInput inputSize 0)
                   scoreThreshold ;;
      let boxes := map box results in
      let scores := map score results in
      let classNames :=
        map (fun res => nth_error (Config.classes (config self)) (classLabel res))
            results in
      let indices :=
        nonMaxSuppression (map (fun b => rescale b inputSize) boxes) scores
          (Config.iouThreshold (config self)) true in
      concatMapM (fun idx =>
        match nth_error boxes idx, nth_error scores idx with
        | Some b, Some s =>
            Ok [ mkObjectDetection E s (nth idx classNames None) (toRect E b)
                   inputDimensions ]
        | _, _ => Err "Cannot read properties of undefined"
        end) indices
  end.

(** ** Training loss: [computeLoss] *)

Definition tf_sigmoid : Tensor -> Tensor :=
  tf_map (fun v => 1 / (1 + exp (- v))).

Record LossTerms : Type := mkLossTerms {
  noObjectLoss : Tensor;
  objectLoss : Tensor;
  coordLoss : Tensor;
  classLoss : Tensor;
  totalLoss : Tensor
}.

(** Lines 158-160: the three masks of the loss. *)
Definition noObjectLossMask (scoreMask groundTruthMask : Tensor)
  : Result Tensor :=
  complement <- tf_sub (tf_scalar 1) groundTruthMask ;;
  tf_mul scoreMask complement.

Definition objectLossMask (scoreMask groundTruthMask : Tensor)
  : Result Tensor :=
  tf_mul scoreMask groundTruthMask.

Definition coordLossMask (coordMask groundTruthMask : Tensor)
  : Result Tensor :=
  tf_mul coordMask groundTruthMask.

Definition squaredSumOverMask (mask lossTensor : Tensor) : Result Tensor :=
  masked <- tf_mul mask lossTensor ;;
  Ok (tf_sum (tf_square masked)).

Definition computeLossTerm (scale : R) (mask lossTensor : Tensor)
  : Result Tensor :=
  s <- squaredSumOverMask mask lossTensor ;;
  tf_mul (tf_scalar scale) s.

Definition computeNoObjectLoss (outTensor : Tensor) : Tensor :=
  tf_sigmoid outTensor.

Definition computeObjectLoss (E : Collaborators) (self : TinyYolov2 E)
    (groundTruthBoxes : list GroundTruthWithGridPosition.t)
    (outTensor : Tensor) (reshapedImgDims : Dimensions) : Result Tensor :=
  predBoxes <- extractBoxes (config self) outTensor reshapedImgDims None ;;
  let ious := computeIous E predBoxes groundTruthBoxes reshapedImgDims in
  tf_sub ious (tf_sigmoid outTensor).

Definition computeCoordLoss (E : Collaborators) (self : TinyYolov2 E)
    (groundTruthBoxes : list GroundTruthWithGridPosition.t)
    (outTensor : Tensor) (reshapedImgDims : Dimensions) : Result Tensor :=
  let boxAdjustments :=
    computeBoxAdjustments E groundTruthBoxes (Config.anchors (config self))
      reshapedImgDims in
  tf_sub boxAdjustments outTensor.

Definition computeClassLoss (E : Collaborators) (self : TinyYolov2 E)
    (groundTruthBoxes : list GroundTruthWithGridPosition.t)
    (outTensor : Tensor) : Result Tensor :=
  let numCells := nth 1 (shape outTensor) 0%nat in
  let numBoxes := List.length (Config.anchors (config self)) in
  let numClasses := List.length (Config.classes (config self)) in
  let gtClassScores :=
    createOneHotClassScoreMask E groundTruthBoxes numCells numClasses numBoxes in
  reshaped <- tf_reshape outTensor
                [numCells; numCells; numBoxes; boxEncodingSize (config self)] ;;
  sliced <- tf_slice reshaped [0; 0; 0; 5]%nat
              [numCells; numCells; numBoxes; numClasses] ;;
  classScores <- tf_softmax sliced 3 ;;
  tf_sub gtClassScores classScores.

Definition computeLoss (E : Collaborators) (self : TinyYolov2 E)
    (outTensor : Tensor) (groundTruth : list (GroundTruth E))
    (reshapedImgDims : Dimensions) : Result LossTerms :=
  trainConfig <- validateTrainConfig E (config self) ;;
  let inputSize := Rmax (width reshapedImgDims) (height reshapedImgDims) in
  if Req_EM_T inputSize 0
  then Err "computeLoss - invalid inputSize"
  else
    groundTruthBoxes <-
      assignGroundTruthToAnchors E groundTruth (Config.anchors (config self))
        reshapedImgDims ;;
    let numBoxes := List.length (Config.anchors (config self)) in
    let groundTruthMask :=
      createGroundTruthMask E groundTruthBoxes inputSize
        (boxEncodingSize (config self)) numBoxes in
    let masks :=
      createCoordAndScoreMasks E inputSize (boxEncodingSize (config self))
        numBoxes in
    let coordMask := fst masks in
    let scoreMask := snd masks in
    noObjectMask <- noObjectLossMask scoreMask groundTruthMask ;;
    objectMask <- objectLossMask scoreMask groundTruthMask ;;
    coordMask' <- coordLossMask coordMask groundTruthMask ;;
    noObjectLoss <-
      computeLossTerm (noObjectScale trainConfig) noObjectMask
        (computeNoObjectLoss outTensor) ;;
    objectTensor <-
      computeObjectLoss self groundTruthBoxes outTensor reshapedImgDims ;;
    objectLoss <-
      computeLossTerm (objectScale trainConfig) objectMask objectTensor ;;
    coordTensor <-
      computeCoordLoss self groundTruthBoxes outTensor reshapedImgDims ;;
    coordLoss <-
      computeLossTerm (coordScale trainConfig) coordMask' coordTensor ;;
    classLoss <-
      (if withClassScores (config self)
       then classTensor <- computeClassLoss self groundTruthBoxes outTensor ;;
            computeLossTerm (classScale trainConfig) (tf_scalar 1) classTensor
       else Ok (tf_scalar 0)) ;;
    totalLoss <-
      (s1 <- tf_add noObjectLoss objectLoss ;;
       s2 <- tf_add s1 coordLoss ;;
       tf_add s2 classLoss) ;;
    Ok (mkLossTerms noObjectLoss objectLoss coordLoss classLoss totalLoss).

(** ** The masks, as the spec describes them *)

Module MaskModel.

Definition assigned (gts : list GroundTruthWithGridPosition.t)
    (r c a : nat) : bool :=
  existsb (fun g =>
    (GroundTruthWithGridPosition.row g =? r)%nat
    && (GroundTruthWithGridPosition.col g =? c)%nat
    && (GroundTruthWithGridPosition.anchor g =? a)%nat) gts.

(** Modelled from the spec: [createGroundTruthMask] is not part of the
    sources at hand.  The spec shapes the masks "like RawOutput",
    [[gridSize, gridSize, numAnchors, boxEncodingSize]], and sets the
    ground-truth mask to "1 at assigned slots".  The number of cells per
    side, which the function derives from [inputSize] by a constant of the
    repository, is taken as the argument. *)
Definition createGroundTruthMask
    (groundTruthBoxes : list GroundTruthWithGridPosition.t)
    (numCells boxEncodingSize numBoxes : nat) : Tensor :=
  mkTensor [numCells; numCells; numBoxes; boxEncodingSize]
    (fun idx =>
       match idx with
       | [r; c; a; _] => if assigned groundTruthBoxes r c a then 1 else 0
       | _ => 0
       end).

(** Modelled from the spec: [createCoordAndScoreMasks] is not part of the
    sources at hand.  The score mask is the indicator of "the score
    channel" (position 4 of a slot), the coordinate mask that of "the 4
    geometry positions". *)
Definition createCoordAndScoreMasks (numCells boxEncodingSize numBoxes : nat)
  : Tensor * Tensor :=
  (mkTensor [numCells; numCells; numBoxes; boxEncodingSize]
     (fun idx =>
        match idx with
        | [_; _; _; k] => if (k <? 4)%nat then 1 else 0
        | _ => 0
        end),
   mkTensor [numCells; numCells; numBoxes; boxEncodingSize]
     (fun idx =>
        match idx with
        | [_; _; _; k] => if (k =? 4)%nat then 1 else 0
        | _ => 0
        end)).

End MaskModel.

(** ** The decoding, as the spec describes it

    The spec reads the output of the network as the tensor [RawOutput] of
    shape [[gridSize, gridSize, numAnchors, boxEncodingSize]], whose slot
    [[r, c, a, :]] holds [(tx, ty, tw, th, to, classLogits...)]. *)

Definition gridSize (outputTensor : Tensor) : nat :=
  nth 1 (shape outputTensor) 0%nat.

Definition rawOutput (config : TinyYolov2Config) (outputTensor : Tensor)
  : Result Tensor :=
  tf_reshape outputTensor
    [gridSize outputTensor; gridSize outputTensor;
     List.length (Config.anchors config); boxEncodingSize config].

Definition correctionFactorX (d : Dimensions) : R :=
  Rmax (width d) (height d) / width d.

Definition correctionFactorY (d : Dimensions) : R :=
  Rmax (width d) (height d) / height d.

(** BoxCodec [decode], in the words of the spec. *)
Definition specDecode (row col : nat) (tx ty tw th : R) (anchorPrior : Point.t)
    (numCells : nat) (cfX cfY : R) : BoundingBox :=
  let center_x := (INR col + sigmoid tx) / INR numCells * cfX in
  let center_y := (INR row + sigmoid ty) / INR numCells * cfY in
  let width := exp tw * Point.x anchorPrior / INR numCells * cfX in
  let height := exp th * Point.y anchorPrior / INR numCells * cfY in
  mkBoundingBox (center_x - width / 2) (center_y - height / 2)
                (center_x + width / 2) (center_y + height / 2).

(** The class logits of a slot, normalised across the classes. *)
Definition classProbability (raw : Tensor) (numClasses r c a i : nat) : R :=
  exp (tget raw r c a (5 + i)) /
  Rsum (map (fun k => exp (tget raw r c a (5 + k))) (seq 0 numClasses)).

Definition pickMax (max curr : PredictedClass) : PredictedClass :=
  if Rgt_dec (pcScore max) (pcScore curr) then max else curr.

Definition specPredictedClass (config : TinyYolov2Config) (raw : Tensor)
    (r c a : nat) : PredictedClass :=
  if withClassScores config then
    let numClasses := List.length (Config.classes config) in
    match map (fun i => mkPredictedClass (classProbability raw numClasses r c a i) i)
              (seq 0 numClasses) with
    | [] => mkPredictedClass 1 0
    | first :: others => fold_left pickMax others first
    end
  else mkPredictedClass 1 0.

Definition objectness (raw : Tensor) (r c a : nat) : R :=
  sigmoid (tget raw r c a 4).

Definition specDetection (config : TinyYolov2Config) (raw : Tensor)
    (d : Dimensions) (r c a : nat) : ExtractedBox :=
  let pc := specPredictedClass config raw r c a in
  mkExtractedBox
    (specDecode r c (tget raw r c a 0) (tget raw r c a 1) (tget raw r c a 2)
       (tget raw r c a 3) (nth a (Config.anchors config) (Point.mk 0 0))
       (nth 0 (shape raw) 0%nat) (correctionFactorX d) (correctionFactorY d))
    (objectness raw r c a * pcScore pc) (pcLabel pc) r c a.

Definition specSlot (config : TinyYolov2Config) (raw : Tensor)
    (d : Dimensions) (scoreThreshold : option R) (r c a : nat)
  : list ExtractedBox :=
  if passesThreshold scoreThreshold (objectness raw r c a)
  then [specDetection config raw d r c a]
  else [].

Definition specExtract (config : TinyYolov2Config) (raw : Tensor)
    (d : Dimensions) (scoreThreshold : option R) : list ExtractedBox :=
  let numCells := nth 0 (shape raw) 0%nat in
  let numBoxes := List.length (Config.anchors config) in
  flat_map (fun r =>
    flat_map (fun c =>
      flat_map (fun a => specSlot config raw d scoreThreshold r c a)
        (seq 0 numBoxes))
      (seq 0 numCells))
    (seq 0 numCells).

(** The classes that [extractPredictedClass] reduces over are not empty. *)
Definition validClasses (config : TinyYolov2Config) : Prop :=
  withClassScores config = true -> Config.classes config <> [].

(** The suppression test of [nonMaxSuppression] on boxes with their scores. *)
Definition pairSuppresses (iouThreshold : R) (best c : BoundingBox * R) : bool :=
  overlaps iouThreshold (fst best) (fst c).

(** ** A fixed network for the examples *)

Module Example.

(** Collaborators whose network answers every image with the tensor
    [outTensor]; images are square, the forward parameters have no
    defaults, and the helpers of the loss build the masks of [MaskModel]
    over the grid of [outTensor] and all-zero targets. *)
Definition network (outTensor : Tensor) : Collaborators :=
  {| NetParams := unit;
     TNetInput := unit;
     NetInput := unit;
     Rect := BoundingBox;
     GroundTruth := GroundTruthWithGridPosition.t;
     toNetInput := fun _ _ => Ok tt;
     getInputWidth := fun _ _ => 32;
     getInputHeight := fun _ _ => 32;
     getReshapedInputDimensions := fun _ size _ => mkDimensions size size;
     runLayers := fun _ _ _ _ => Ok outTensor;
     getDefaultParams := fun p => p;
     INPUT_SIZES := fun _ => None;
     toRect := fun b => b;
     validateTrainConfig := fun _ => Ok (mkTrainConfig 1 5 1 1);
     assignGroundTruthToAnchors := fun gts _ _ => Ok gts;
     createGroundTruthMask := fun gts _ enc numBoxes =>
       MaskModel.createGroundTruthMask gts (gridSize outTensor) enc numBoxes;
     createCoordAndScoreMasks := fun _ enc numBoxes =>
       MaskModel.createCoordAndScoreMasks (gridSize outTensor) enc numBoxes;
     computeIous := fun _ _ _ => mkTensor (shape outTensor) (fun _ => 0);
     computeBoxAdjustments := fun _ _ _ =>
       mkTensor (shape outTensor) (fun _ => 0);
     createOneHotClassScoreMask := fun _ n c b =>
       mkTensor [n; n; b; c] (fun _ => 0) |}.

(** One anchor, one class, no class scores. *)
Definition oneAnchor : TinyYolov2Config :=
  Config.mk false (2 / 5) [Point.mk 1 1] ["face"%string] None None.

(** A batch of one image on a 1 x 1 grid with 5 channels, every value [-1]. *)
Definition quietOutput : Tensor := mkTensor [1; 1; 1; 5]%nat (fun _ => -1).

(** Three anchors (square, flat, tall) and two classes. *)
Definition threeAnchors : TinyYolov2Config :=
  Config.mk false (2 / 5)
    [Point.mk 1 1; Point.mk 1 (1 / 2); Point.mk (1 / 2) 1]
    ["a"%string; "b"%string] None None.

(** A batch of one image on a 1 x 1 grid with 3 x 7 channels: the square
    box has objectness logit 1 and class logits (4, 0), the flat and the
    tall box have objectness logit 4 and class logits (0, 0); all offsets
    and sizes are 0. *)
Definition crowdedOutput : Tensor :=
  mkTensor [1; 1; 1; 21]%nat
    (fun idx =>
       match idx with
       | [_; _; _; 4%nat] => 1
       | [_; _; _; 5%nat] => 4
       | [_; _; _; 11%nat] => 4
       | [_; _; _; 18%nat] => 4
       | _ => 0
       end).

(** The first image of [crowdedOutput] and its view as [RawOutput]. *)
Definition crowdedFirst : Tensor :=
  mkTensor [1; 1; 1; 21]%nat
    (fun idx => entry crowdedOutput (0%nat :: tl idx)).

Definition crowdedRaw : Tensor :=
  mkTensor [1; 1; 3; 7]%nat
    (fun idx => entry crowdedFirst
                  (unravel [1; 1; 1; 21]%nat (ravel [1; 1; 3; 7]%nat idx))).

Definition square : Dimensions := mkDimensions 32 32.

Definition loaded (outTensor : Tensor) (cfg : TinyYolov2Config)
  : TinyYolov2 (network outTensor) :=
  mkTinyYolov2 (network outTensor) cfg (Some tt).

Definition withThreshold (t : R) : TinyYolov2ForwardParams :=
  mkForwardParams (Some (inl 32)) (Some t).

End Example.

(** ** The slots of the grid *)

(** The positions that the three loops of [extractBoxes] visit, in the order
    in which they visit them: rows, then columns, then anchors. *)
Definition allSlots (numCells numBoxes : nat) : list (nat * nat * nat) :=
  flat_map (fun r =>
    flat_map (fun c => map (fun a => (r, c, a)) (seq 0 numBoxes))
      (seq 0 numCells))
    (seq 0 numCells).

(** The position that an entry of [extractBoxes] carries ([...pos]). *)
Definition slotOf (res : ExtractedBox) : nat * nat * nat :=
  (row res, col res, anchor res).

(** The filter of [extractBoxes] on a slot of the view [raw]. *)
Definition slotPasses (scoreThreshold : option R) (raw : Tensor)
    (slot : nat * nat * nat) : bool :=
  passesThreshold scoreThreshold
    (sigmoid (tget raw (fst (fst slot)) (snd (fst slot)) (snd slot) 4)).

(** [pc] is the arg-max of the scores [g] over the labels [lo .. hi - 1],
    the last of them when several labels share the greatest score. *)
Definition leads (g : nat -> R) (lo hi : nat) (pc : PredictedClass) : Prop :=
  (lo <= pcLabel pc < hi)%nat /\
  pcScore pc = g (pcLabel pc) /\
  (forall i, (lo <= i < hi)%nat -> g i <= pcScore pc) /\
  (forall i, (pcLabel pc < i < hi)%nat -> g i < pcScore pc).

(** * Properties *)

(** ** The error monad and the loops *)

Lemma bind_Ok_inv (A B : Type) (r : Result A) (k : A -> Result B) (b : B) :
  bind r k = Ok b -> exists a, r = Ok a /\ k a = Ok b.
Proof.
  destruct r as [a | msg]; simpl; intros H.
  - exists a; split; [reflexivity | exact H].
  - discriminate H.
Qed.

Ltac invert_bind H :=
  let a := fresh "v" in
  let Ha := fresh "Hv" in
  apply bind_Ok_inv in H; destruct H as [a [Ha H]].

Lemma concatMapM_flat_map (A B : Type) (f : A -> Result (list B))
    (g : A -> list B) (l : list A) :
  (forall a, In a l -> f a = Ok (g a)) ->
  concatMapM f l = Ok (flat_map g l).
Proof.
  induction l as [| a tl IH]; intros Hf; simpl.
  - reflexivity.
  - rewrite (Hf a (or_introl eq_refl)); simpl.
    rewrite IH by (intros b Hb; apply Hf; right; exact Hb).
    reflexivity.
Qed.

Lemma concatMapM_inv (A B : Type) (f : A -> Result (list B))
    (g : A -> list B) (l : list A) (rs : list B) :
  concatMapM f l = Ok rs ->
  (forall a bs, In a l -> f a = Ok bs -> bs = g a) ->
  rs = flat_map g l.
Proof.
  revert rs; induction l as [| a tl IH]; intros rs H Hg; simpl in *.
  - congruence.
  - invert_bind H. invert_bind H. inversion H; subst rs; clear H.
    rewrite (Hg a v (or_introl eq_refl) Hv).
    rewrite (IH v0 Hv0) by (intros b bs Hb; apply Hg; right; exact Hb).
    reflexivity.
Qed.

Lemma concatMapM_singletons (A B : Type) (f : A -> Result (list B))
    (l : list A) :
  (forall a, In a l -> exists b, f a = Ok [b]) ->
  exists rs, concatMapM f l = Ok rs /\ List.length rs = List.length l.
Proof.
  induction l as [| a tl IH]; intros Hf; simpl.
  - exists []; split; reflexivity.
  - destruct (Hf a (or_introl eq_refl)) as [b Hb]. rewrite Hb; simpl.
    destruct IH as [rs [Hrs Hlen]]; [intros c Hc; apply Hf; right; exact Hc |].
    rewrite Hrs; simpl. exists (b :: rs); split; [reflexivity | simpl; lia].
Qed.

Lemma combine_map_self (A : Type) (f : nat -> A) (l : list nat) :
  combine (map f l) l = map (fun i => (f i, i)) l.
Proof.
  induction l as [| i tl IH]; simpl; [reflexivity | now rewrite IH].
Qed.

(** ** The logistic function and the class probabilities *)

Lemma sigmoid_pos (v : R) : 0 < sigmoid v.
Proof.
  unfold sigmoid. pose proof (exp_pos (- v)).
  apply Rdiv_lt_0_compat; lra.
Qed.

Lemma sigmoid_lt_1 (v : R) : sigmoid v < 1.
Proof.
  unfold sigmoid. pose proof (exp_pos (- v)) as He.
  apply Rmult_lt_reg_r with (1 + exp (- v)); [lra |].
  unfold Rdiv. rewrite Rmult_assoc, Rinv_l by lra. lra.
Qed.

Lemma Rsum_exp_pos (f : nat -> R) (l : list nat) :
  l <> [] -> 0 < Rsum (map (fun k => exp (f k)) l).
Proof.
  destruct l as [| a tl]; [congruence | intros _].
  simpl. pose proof (exp_pos (f a)).
  assert (0 <= Rsum (map (fun k => exp (f k)) tl)).
  { induction tl as [| b tl IH]; simpl; [lra |].
    pose proof (exp_pos (f b)); lra. }
  lra.
Qed.

Lemma Rsum_exp_ge (f : nat -> R) (l : list nat) (i : nat) :
  In i l -> exp (f i) <= Rsum (map (fun k => exp (f k)) l).
Proof.
  induction l as [| a tl IH]; simpl; [tauto |].
  intros [-> | Hin].
  - assert (0 <= Rsum (map (fun k => exp (f k)) tl)).
    { clear IH; induction tl as [| b tl IH]; simpl; [lra |].
      pose proof (exp_pos (f b)); lra. }
    lra.
  - pose proof (exp_pos (f a)). specialize (IH Hin). lra.
Qed.

Lemma classProbability_range (raw : Tensor) (numClasses r c a i : nat) :
  (i < numClasses)%nat ->
  0 < classProbability raw numClasses r c a i <= 1.
Proof.
  intros Hi. unfold classProbability.
  set (f := fun k => tget raw r c a (5 + k)).
  change (exp (tget raw r c a (5 + i))) with (exp (f i)).
  assert (Hin : In i (seq 0 numClasses)) by (apply in_seq; lia).
  pose proof (Rsum_exp_ge f _ _ Hin) as Hge.
  assert (Hpos : 0 < Rsum (map (fun k => exp (f k)) (seq 0 numClasses))).
  { apply Rsum_exp_pos. intros E0. rewrite E0 in Hin. exact Hin. }
  pose proof (exp_pos (f i)) as Hei.
  split.
  - apply Rdiv_lt_0_compat; assumption.
  - apply Rmult_le_reg_r with (Rsum (map (fun k => exp (f k)) (seq 0 numClasses)));
      [exact Hpos |].
    unfold Rdiv. rewrite Rmult_assoc, Rinv_l by lra. lra.
Qed.

Lemma fold_pickMax_In (others : list PredictedClass) (first : PredictedClass) :
  In (fold_left pickMax others first) (first :: others).
Proof.
  revert first; induction others as [| p tl IH]; intros first; simpl.
  - left; reflexivity.
  - assert (Hp : pickMax first p = first \/ pickMax first p = p)
      by (unfold pickMax; destruct (Rgt_dec _ _); auto).
    destruct Hp as [Hp | Hp]; rewrite Hp.
    + destruct (IH first) as [H | H]; [left; exact H | right; right; exact H].
    + right. exact (IH p).
Qed.

Lemma specPredictedClass_range (config : TinyYolov2Config) (raw : Tensor)
    (r c a : nat) :
  0 < pcScore (specPredictedClass config raw r c a) <= 1.
Proof.
  unfold specPredictedClass.
  destruct (withClassScores config); [| simpl; lra].
  destruct (map _ (seq 0 (List.length (Config.classes config))))
    as [| first others] eqn:Hl; [simpl; lra |].
  pose proof (fold_pickMax_In others first) as Hin.
  rewrite <- Hl in Hin. apply in_map_iff in Hin.
  destruct Hin as [i [Hi Hin]]. rewrite <- Hi; simpl.
  apply classProbability_range. apply in_seq in Hin. lia.
Qed.

Lemma extractPredictedClass_list (config : TinyYolov2Config) (classT : Tensor)
    (r c a : nat) :
  extractPredictedClass config classT r c a =
  js_reduce pickMax
    (map (fun i => mkPredictedClass (tget classT r c a i) i)
         (seq 0 (List.length (Config.classes config)))).
Proof.
  unfold extractPredictedClass.
  rewrite length_map, length_seq, combine_map_self, map_map.
  reflexivity.
Qed.

Lemma sliceFits_last (n b e k z : nat) :
  (k + z <= e)%nat ->
  sliceFits [0; 0; 0; k]%nat [n; n; b; z] [n; n; b; e] = true.
Proof.
  intros H. simpl. rewrite !Nat.leb_refl. simpl.
  rewrite andb_true_r. apply Nat.leb_le. exact H.
Qed.

Lemma boxEncodingSize_ge (config : TinyYolov2Config) :
  (5 <= boxEncodingSize config)%nat.
Proof. unfold boxEncodingSize. lia. Qed.


Lemma js_reduce_pickMax_inv (l : list PredictedClass) (pc : PredictedClass) :
  js_reduce pickMax l = Ok pc ->
  match l with
  | [] => False
  | first :: others => pc = fold_left pickMax others first
  end.
Proof.
  destruct l as [| first others]; simpl; intros H; [discriminate | congruence].
Qed.

Lemma extractPredictedClass_spec (config : TinyYolov2Config)
    (raw classT : Tensor) (r c a : nat) (pc : PredictedClass) :
  withClassScores config = true ->
  (forall i, tget classT r c a i =
             classProbability raw (List.length (Config.classes config)) r c a i) ->
  extractPredictedClass config classT r c a = Ok pc ->
  pc = specPredictedClass config raw r c a.
Proof.
  intros Hw Hcls H. rewrite extractPredictedClass_list in H.
  unfold specPredictedClass. rewrite Hw.
  rewrite (map_ext _ (fun i => mkPredictedClass
             (classProbability raw (List.length (Config.classes config)) r c a i) i))
    in H by (intros i; now rewrite Hcls).
  apply js_reduce_pickMax_inv in H.
  destruct (map _ (seq 0 (List.length (Config.classes config)))); [contradiction | exact H].
Qed.

Lemma extractPredictedClass_total (config : TinyYolov2Config)
    (raw classT : Tensor) (r c a : nat) :
  withClassScores config = true ->
  Config.classes config <> [] ->
  (forall i, tget classT r c a i =
             classProbability raw (List.length (Config.classes config)) r c a i) ->
  extractPredictedClass config classT r c a =
  Ok (specPredictedClass config raw r c a).
Proof.
  intros Hw Hne Hcls. rewrite extractPredictedClass_list.
  unfold specPredictedClass. rewrite Hw.
  rewrite (map_ext _ (fun i => mkPredictedClass
             (classProbability raw (List.length (Config.classes config)) r c a i) i))
    by (intros i; now rewrite Hcls).
  destruct (Config.classes config) as [| cl cls]; [congruence |].
  reflexivity.
Qed.

Lemma decoded_box_eq (cx cy w h : R) :
  mkBoundingBox (cx - w / 2) (cy - h / 2)
                (cx - w / 2 + w) (cy - h / 2 + h) =
  mkBoundingBox (cx - w / 2) (cy - h / 2) (cx + w / 2) (cy + h / 2).
Proof. f_equal; lra. Qed.

Section SlotRefinement.

Variable config : TinyYolov2Config.
Variables raw boxesT scoresT classT : Tensor.
Variable d : Dimensions.
Variable thr : option R.
Variables r c a : nat.

Hypothesis boxes_of_raw : forall k, tget boxesT r c a k = tget raw r c a k.
Hypothesis scores_of_raw : tget scoresT r c a 0 = tget raw r c a 4.
Hypothesis classes_of_raw :
  withClassScores config = true ->
  forall i, tget classT r c a i =
            classProbability raw (List.length (Config.classes config)) r c a i.

Lemma extractSlot_spec (bs : list ExtractedBox) :
  extractSlot config boxesT scoresT classT (nth 0 (shape raw) 0%nat)
    (correctionFactorX d) (correctionFactorY d) thr r c a = Ok bs ->
  bs = specSlot config raw d thr r c a.
Proof.
  unfold extractSlot, specSlot, objectness.
  rewrite scores_of_raw, !boxes_of_raw.
  destruct (passesThreshold thr (sigmoid (tget raw r c a 4))); [| congruence].
  intros H. invert_bind H. inversion H; subst bs; clear H.
  assert (Hpc : v = specPredictedClass config raw r c a).
  { destruct (withClassScores config) eqn:Hw.
    - apply extractPredictedClass_spec with (classT := classT); auto.
    - unfold specPredictedClass; rewrite Hw; congruence. }
  subst v. unfold specDetection, specDecode, objectness.
  rewrite decoded_box_eq. reflexivity.
Qed.

Lemma extractSlot_total :
  (withClassScores config = true -> Config.classes config <> []) ->
  extractSlot config boxesT scoresT classT (nth 0 (shape raw) 0%nat)
    (correctionFactorX d) (correctionFactorY d) thr r c a =
  Ok (specSlot config raw d thr r c a).
Proof.
  intros Hvalid. unfold extractSlot, specSlot, objectness.
  rewrite scores_of_raw, !boxes_of_raw.
  destruct (passesThreshold thr (sigmoid (tget raw r c a 4))); [| reflexivity].
  assert (Hpc : (if withClassScores config
                 then extractPredictedClass config classT r c a
                 else Ok (mkPredictedClass 1 0)) =
                Ok (specPredictedClass config raw r c a)).
  { destruct (withClassScores config) eqn:Hw.
    - apply extractPredictedClass_total; auto.
    - unfold specPredictedClass; rewrite Hw; reflexivity. }
  rewrite Hpc; cbn [bind].
  unfold specDetection, specDecode, objectness.
  rewrite decoded_box_eq. reflexivity.
Qed.

End SlotRefinement.

Lemma rawOutput_shape (config : TinyYolov2Config) (out raw : Tensor) :
  rawOutput config out = Ok raw ->
  shape raw = [gridSize out; gridSize out;
               List.length (Config.anchors config); boxEncodingSize config].
Proof.
  unfold rawOutput, tf_reshape. destruct (_ =? _)%nat; [| discriminate].
  intros H; inversion H; reflexivity.
Qed.

Lemma extractBoxes_unfold (config : TinyYolov2Config) (out raw : Tensor)
    (d : Dimensions) (thr : option R) :
  rawOutput config out = Ok raw ->
  exists boxesT scoresT classT,
    (forall r c a k, tget boxesT r c a k = tget raw r c a k) /\
    (forall r c a, tget scoresT r c a 0 = tget raw r c a 4) /\
    (withClassScores config = true ->
     forall r c a i,
       tget classT r c a i =
       classProbability raw (List.length (Config.classes config)) r c a i) /\
    extractBoxes config out d thr =
    concatMapM (fun row =>
      concatMapM (fun col =>
        concatMapM (fun anchor =>
          extractSlot config boxesT scoresT classT (nth 0 (shape raw) 0%nat)
            (correctionFactorX d) (correctionFactorY d) thr row col anchor)
          (seq 0 (List.length (Config.anchors config))))
        (seq 0 (nth 0 (shape raw) 0%nat)))
      (seq 0 (nth 0 (shape raw) 0%nat)).
Proof.
  intros Hraw. pose proof (rawOutput_shape _ _ Hraw) as Hshape.
  unfold extractBoxes. unfold rawOutput, gridSize in Hraw, Hshape.
  rewrite Hraw; cbn [bind]. rewrite Hshape; simpl nth.
  set (n := nth 1 (shape out) 0%nat) in *.
  set (b := List.length (Config.anchors config)) in *.
  pose proof (boxEncodingSize_ge config) as Hge.
  unfold tf_slice. rewrite Hshape.
  rewrite !sliceFits_last by lia. cbn [bind].
  destruct (withClassScores config) eqn:Hw.
  - rewrite sliceFits_last
      by (unfold boxEncodingSize; rewrite Hw; lia).
    cbn [bind]. eexists _, _, _.
    split; [| split; [| split; [| reflexivity]]].
    + intros; reflexivity.
    + intros; reflexivity.
    + intros _ r c a i. reflexivity.
  - cbn [bind]. eexists _, _, _.
    split; [| split; [| split; [| reflexivity]]].
    + intros; reflexivity.
    + intros; reflexivity.
    + discriminate.
Qed.

Lemma extractBoxes_refines (config : TinyYolov2Config) (out : Tensor)
    (d : Dimensions) (thr : option R) (results : list ExtractedBox) :
  extractBoxes config out d thr = Ok results ->
  exists raw, rawOutput config out = Ok raw /\
              results = specExtract config raw d thr.
Proof.
  intros H.
  assert (Hraw : exists raw, rawOutput config out = Ok raw).
  { unfold extractBoxes in H. invert_bind H. exists v. exact Hv. }
  destruct Hraw as [raw Hraw]. exists raw. split; [exact Hraw |].
  destruct (extractBoxes_unfold config out d thr Hraw)
    as [boxesT [scoresT [classT [Hb [Hs [Hc Heq]]]]]].
  rewrite Heq in H. unfold specExtract.
  apply concatMapM_inv with (1 := H). intros r rs _ Hr.
  apply concatMapM_inv with (1 := Hr). intros c cs _ Hcs.
  apply concatMapM_inv with (1 := Hcs). intros a bs _ Hbs.
  apply extractSlot_spec with (4 := Hbs); auto.
Qed.

Lemma extractBoxes_total (config : TinyYolov2Config) (out raw : Tensor)
    (d : Dimensions) (thr : option R) :
  rawOutput config out = Ok raw ->
  validClasses config ->
  extractBoxes config out d thr = Ok (specExtract config raw d thr).
Proof.
  intros Hraw Hvalid.
  destruct (extractBoxes_unfold config out d thr Hraw)
    as [boxesT [scoresT [classT [Hb [Hs [Hc Heq]]]]]].
  rewrite Heq. unfold specExtract.
  apply concatMapM_flat_map; intros r _.
  apply concatMapM_flat_map; intros c _.
  apply concatMapM_flat_map; intros a _.
  apply extractSlot_total; auto.
Qed.

(** ** The layout of the output *)

Lemma unravel_ravel_slot (n b e r c a k : nat) :
  (r < n)%nat -> (c < n)%nat -> (a < b)%nat -> (k < e)%nat ->
  unravel [1; n; n; b * e]%nat (ravel [n; n; b; e] [r; c; a; k])
  = [0; r; c; a * e + k]%nat.
Proof.
  intros Hr Hc Ha Hk. cbn [ravel unravel sizeOf fold_right].
  rewrite !Nat.mul_1_r, !Nat.add_0_r, Nat.div_1_r.
  set (rem := (c * (b * e) + (a * e + k))%nat).
  assert (Hinner : (a * e + k < b * e)%nat).
  { pose proof (Nat.mul_le_mono_r (S a) b e Ha) as H. simpl in H. lia. }
  assert (Hrem : (rem < n * (b * e))%nat).
  { pose proof (Nat.mul_le_mono_r (S c) n (b * e) Hc) as H. simpl in H.
    unfold rem. lia. }
  assert (Hpos : (r * (n * (b * e)) + rem < n * (n * (b * e)))%nat).
  { pose proof (Nat.mul_le_mono_r (S r) n (n * (b * e)) Hr) as H. simpl in H.
    lia. }
  rewrite (Nat.div_small _ _ Hpos), (Nat.mod_small _ _ Hpos).
  assert (H1 : ((r * (n * (b * e)) + rem) / (n * (b * e)) = r)%nat).
  { symmetry. apply Nat.div_unique with rem; [exact Hrem | lia]. }
  assert (H2 : ((r * (n * (b * e)) + rem) mod (n * (b * e)) = rem)%nat).
  { symmetry. apply Nat.mod_unique with r; [exact Hrem | lia]. }
  rewrite H1, H2.
  assert (H3 : (rem / (b * e) = c)%nat).
  { symmetry. apply Nat.div_unique with (a * e + k)%nat; [exact Hinner |].
    unfold rem; lia. }
  assert (H4 : (rem mod (b * e) = a * e + k)%nat).
  { symmetry. apply Nat.mod_unique with c; [exact Hinner |]. unfold rem; lia. }
  rewrite H3, H4. reflexivity.
Qed.

(** The view [RawOutput] of an output of shape
    [[1, numCells, numCells, numBoxes * boxEncodingSize]]: the values of the
    anchor [a] of a cell are the channels [a * boxEncodingSize + k]. *)
Lemma rawOutput_layout (config : TinyYolov2Config) (out raw : Tensor)
    (n r c a k : nat) :
  shape out = [1; n; n;
               List.length (Config.anchors config) * boxEncodingSize config]%nat ->
  rawOutput config out = Ok raw ->
  (r < n)%nat -> (c < n)%nat ->
  (a < List.length (Config.anchors config))%nat ->
  (k < boxEncodingSize config)%nat ->
  tget raw r c a k = tget out 0 r c (a * boxEncodingSize config + k).
Proof.
  intros Hshape Hraw Hr Hc Ha Hk.
  unfold rawOutput, gridSize, tf_reshape in Hraw. rewrite Hshape in Hraw.
  cbn [nth] in Hraw.
  destruct (_ =? _)%nat; [| discriminate Hraw].
  set (b := List.length (Config.anchors config)) in *.
  set (e := boxEncodingSize config) in *.
  assert (Heq : raw = mkTensor [n; n; b; e]
                        (fun idx => entry out
                           (unravel [1; n; n; b * e]%nat
                              (ravel [n; n; b; e] idx))))
    by congruence.
  rewrite Heq. unfold tget. cbn [entry].
  rewrite unravel_ravel_slot by assumption. reflexivity.
Qed.

(** Such an output always has a view: the sizes agree. *)
Lemma rawOutput_ok (config : TinyYolov2Config) (out : Tensor) (n : nat) :
  shape out = [1; n; n;
               List.length (Config.anchors config) * boxEncodingSize config]%nat ->
  exists raw, rawOutput config out = Ok raw.
Proof.
  intros Hshape. unfold rawOutput, gridSize, tf_reshape. rewrite Hshape.
  cbn [nth sizeOf fold_right].
  replace (_ =? _)%nat with true; [eexists; reflexivity |].
  symmetry. apply Nat.eqb_eq. lia.
Qed.

Lemma specExtract_In (config : TinyYolov2Config) (raw : Tensor)
    (d : Dimensions) (thr : option R) (res : ExtractedBox) :
  In res (specExtract config raw d thr) <->
  exists r c a,
    (r < nth 0 (shape raw) 0 /\ c < nth 0 (shape raw) 0 /\
     a < List.length (Config.anchors config))%nat /\
    passesThreshold thr (objectness raw r c a) = true /\
    res = specDetection config raw d r c a.
Proof.
  unfold specExtract, specSlot. split.
  - intros H.
    apply in_flat_map in H; destruct H as [r [Hr H]].
    apply in_flat_map in H; destruct H as [c [Hc H]].
    apply in_flat_map in H; destruct H as [a [Ha H]].
    apply in_seq in Hr, Hc, Ha.
    destruct (passesThreshold thr (objectness raw r c a)) eqn:Hp;
      [| contradiction].
    destruct H as [H | []]. exists r, c, a.
    repeat split; try lia; congruence.
  - intros [r [c [a [[Hr [Hc Ha]] [Hp ->]]]]].
    apply in_flat_map; exists r; split; [apply in_seq; lia |].
    apply in_flat_map; exists c; split; [apply in_seq; lia |].
    apply in_flat_map; exists a; split; [apply in_seq; lia |].
    rewrite Hp. left; reflexivity.
Qed.

Lemma passesThreshold_nonzero (t s : R) :
  t <> 0 -> (passesThreshold (Some t) s = true <-> s > t).
Proof.
  intros Ht. unfold passesThreshold.
  destruct (Req_EM_T t 0) as [E0 | _]; [contradiction |].
  destruct (Rgt_dec s t) as [Hgt | Hle]; split; intros H.
  - exact Hgt.
  - reflexivity.
  - discriminate H.
  - contradiction.
Qed.

(** C1. Every entry that [extractBoxes] returns sits at a slot of the grid
    and carries the box of the spec's geometry transform: the centre
    [(col + sigmoid tx) / numCells * correctionFactorX],
    [(row + sigmoid ty) / numCells * correctionFactorY], the size
    [exp tw * anchor.x / numCells * correctionFactorX],
    [exp th * anchor.y / numCells * correctionFactorY], and the corners
    [centre -/+ size / 2]; and every slot that passes the score filter has
    such an entry. *)
Theorem extractBoxes_decodes_geometry (config : TinyYolov2Config)
    (out : Tensor) (d : Dimensions) (thr : option R)
    (results : list ExtractedBox) :
  extractBoxes config out d thr = Ok results ->
  exists raw,
    rawOutput config out = Ok raw /\
    (forall res, In res results ->
       (row res < gridSize out /\ col res < gridSize out /\
        anchor res < List.length (Config.anchors config))%nat /\
       box res =
       specDecode (row res) (col res)
         (tget raw (row res) (col res) (anchor res) 0)
         (tget raw (row res) (col res) (anchor res) 1)
         (tget raw (row res) (col res) (anchor res) 2)
         (tget raw (row res) (col res) (anchor res) 3)
         (nth (anchor res) (Config.anchors config) (Point.mk 0 0))
         (gridSize out)
         (Rmax (width d) (height d) / width d)
         (Rmax (width d) (height d) / height d)) /\
    (forall r c a,
       (r < gridSize out)%nat -> (c < gridSize out)%nat ->
       (a < List.length (Config.anchors config))%nat ->
       passesThreshold thr (sigmoid (tget raw r c a 4)) = true ->
       exists res,
         In res results /\ row res = r /\ col res = c /\ anchor res = a).
Proof.
  intros H. destruct (extractBoxes_refines _ _ _ _ H) as [raw [Hraw ->]].
  pose proof (rawOutput_shape _ _ Hraw) as Hshape.
  assert (Hn : nth 0 (shape raw) 0%nat = gridSize out)
    by (rewrite Hshape; reflexivity).
  exists raw. split; [exact Hraw |]. split.
  - intros res Hin. apply specExtract_In in Hin.
    destruct Hin as [r [c [a [Hrange [_ ->]]]]]. rewrite Hn in Hrange.
    split; [exact Hrange |]. simpl. rewrite Hn. reflexivity.
  - intros r c a Hr Hc Ha Hp.
    exists (specDetection config raw d r c a). split.
    + apply specExtract_In. exists r, c, a. rewrite Hn. auto.
    + simpl; auto.
Qed.

(** C4. The score of every entry that [extractBoxes] returns is the
    squashed objectness of its slot times the probability of the selected
    class (times 1 without class scores), and lies in [[0, 1]]. *)
Theorem extracted_score_in_unit_interval (config : TinyYolov2Config)
    (out : Tensor) (d : Dimensions) (thr : option R)
    (results : list ExtractedBox) :
  extractBoxes config out d thr = Ok results ->
  exists raw,
    rawOutput config out = Ok raw /\
    forall res, In res results ->
      let classScore :=
        pcScore (specPredictedClass config raw (row res) (col res) (anchor res))
      in
      score res =
        sigmoid (tget raw (row res) (col res) (anchor res) 4) * classScore /\
      (withClassScores config = false -> classScore = 1) /\
      0 < classScore <= 1 /\
      0 <= score res <= 1.
Proof.
  intros H. destruct (extractBoxes_refines _ _ _ _ H) as [raw [Hraw ->]].
  exists raw. split; [exact Hraw |].
  intros res Hin. apply specExtract_In in Hin.
  destruct Hin as [r [c [a [_ [_ ->]]]]]. simpl.
  pose proof (specPredictedClass_range config raw r c a) as Hp.
  pose proof (sigmoid_pos (tget raw r c a 4)) as Hs0.
  pose proof (sigmoid_lt_1 (tget raw r c a 4)) as Hs1.
  unfold objectness.
  split; [reflexivity |]. split; [| split; [exact Hp |]].
  - intros Hw. unfold specPredictedClass. rewrite Hw. reflexivity.
  - split; nra.
Qed.

Lemma list_nil_no_In (A : Type) (l : list A) :
  (forall a, ~ In a l) -> l = [].
Proof.
  destruct l as [| a tl]; [reflexivity |].
  intros H. exfalso. apply (H a). left; reflexivity.
Qed.

Lemma specExtract_nil (config : TinyYolov2Config) (raw : Tensor)
    (d : Dimensions) (thr : option R) :
  (forall r c a,
     (r < nth 0 (shape raw) 0)%nat -> (c < nth 0 (shape raw) 0)%nat ->
     (a < List.length (Config.anchors config))%nat ->
     passesThreshold thr (objectness raw r c a) = false) ->
  specExtract config raw d thr = [].
Proof.
  intros Hno. apply list_nil_no_In. intros res Hin.
  apply specExtract_In in Hin.
  destruct Hin as [r [c [a [[Hr [Hc Ha]] [Hp _]]]]].
  rewrite (Hno r c a Hr Hc Ha) in Hp. discriminate Hp.
Qed.

Section Detect.

Variable E : Collaborators.
Variable self : TinyYolov2 E.
Variable input : TNetInput E.
Variable forwardParams : TinyYolov2ForwardParams.

Variable size : R.
Variable netInput : NetInput E.
Variables out out0 : Tensor.
Variable results : list ExtractedBox.

Hypothesis size_known :
  resolveInputSize E (inputSize (getDefaultParams E forwardParams)) = Some size.
Hypothesis input_ok : toNetInput E input true = Ok netInput.
Hypothesis forward_ok : forwardInput self netInput size = Ok out.
Hypothesis first_ok : firstOfBatch out = Ok out0.
Hypothesis extract_ok :
  extractBoxes (config self) out0
    (getReshapedInputDimensions E netInput size 0)
    (scoreThreshold (getDefaultParams E forwardParams)) = Ok results.

(** [detect], once the steps before the suppression have succeeded. *)
Lemma detect_after_extract :
  detect self input forwardParams =
  concatMapM (fun idx =>
    match nth_error (map box results) idx,
          nth_error (map score results) idx with
    | Some b, Some s =>
        Ok [ mkObjectDetection E s
               (nth idx
                  (map (fun res =>
                          nth_error (Config.classes (config self))
                                    (classLabel res)) results) None)
               (toRect E b)
               (mkDimensions (getInputWidth E netInput 0)
                             (getInputHeight E netInput 0)) ]
    | _, _ => Err "Cannot read properties of undefined"
    end)
    (nonMaxSuppression (map (fun b => rescale b size) (map box results))
       (map score results) (Config.iouThreshold (config self)) true).
Proof.
  unfold detect.
  rewrite size_known, input_ok. cbn [bind].
  rewrite forward_ok. cbn [bind]. rewrite first_ok. cbn [bind].
  rewrite extract_ok. cbn [bind]. reflexivity.
Qed.

End Detect.

(** C2. With a positive score threshold, a slot of the grid has an entry
    in the result of [extractBoxes] exactly when its squashed objectness is
    strictly above the threshold; and when no slot is above it, [detect]
    (with loaded parameters and a well-shaped output of the network)
    returns the empty list without an error. *)
Theorem threshold_filters_slots (E : Collaborators) (self : TinyYolov2 E)
    (t : R) :
  0 < t ->
  (forall out d results,
     extractBoxes (config self) out d (Some t) = Ok results ->
     exists raw,
       rawOutput (config self) out = Ok raw /\
       forall r c a,
         (r < gridSize out)%nat -> (c < gridSize out)%nat ->
         (a < List.length (Config.anchors (config self)))%nat ->
         ((exists res, In res results /\
                       row res = r /\ col res = c /\ anchor res = a) <->
          sigmoid (tget raw r c a 4) > t)) /\
  (forall input forwardParams size netInput out out0 raw,
     scoreThreshold (getDefaultParams E forwardParams) = Some t ->
     resolveInputSize E (inputSize (getDefaultParams E forwardParams))
       = Some size ->
     toNetInput E input true = Ok netInput ->
     forwardInput self netInput size = Ok out ->
     firstOfBatch out = Ok out0 ->
     rawOutput (config self) out0 = Ok raw ->
     (forall r c a,
        (r < gridSize out0)%nat -> (c < gridSize out0)%nat ->
        (a < List.length (Config.anchors (config self)))%nat ->
        sigmoid (tget raw r c a 4) <= t) ->
     detect self input forwardParams = Ok []).
Proof.
  intros Ht. split.
  - intros out d results H.
    destruct (extractBoxes_refines _ _ _ _ H) as [raw [Hraw ->]].
    pose proof (rawOutput_shape _ _ Hraw) as Hshape.
    assert (Hn : nth 0 (shape raw) 0%nat = gridSize out)
      by (rewrite Hshape; reflexivity).
    exists raw. split; [exact Hraw |].
    intros r c a Hr Hc Ha. split.
    + intros [res [Hin [Er [Ec Ea]]]].
      apply specExtract_In in Hin.
      destruct Hin as [r' [c' [a' [_ [Hp ->]]]]]. simpl in Er, Ec, Ea.
      subst r' c' a'.
      apply passesThreshold_nonzero in Hp; [exact Hp | lra].
    + intros Hgt. exists (specDetection (config self) raw d r c a). split.
      * apply specExtract_In. exists r, c, a. rewrite Hn.
        repeat split; try assumption.
        apply passesThreshold_nonzero; [lra | exact Hgt].
      * simpl; auto.
  - intros input fp size netInput out out0 raw Hthr Hsize Hin Hfw Hfirst
           Hraw Hlow.
    pose proof (rawOutput_shape _ _ Hraw) as Hshape.
    assert (Hn : nth 0 (shape raw) 0%nat = gridSize out0)
      by (rewrite Hshape; reflexivity).
    assert (Hnil : specExtract (config self) raw
                     (getReshapedInputDimensions E netInput size 0)
                     (Some t) = []).
    { apply specExtract_nil. intros r c a Hr Hc Ha.
      rewrite Hn in Hr, Hc. specialize (Hlow r c a Hr Hc Ha).
      destruct (passesThreshold (Some t) (objectness raw r c a)) eqn:Hp;
        [| reflexivity].
      apply passesThreshold_nonzero in Hp; [| lra].
      unfold objectness in Hp. lra. }
    assert (Hex : extractBoxes (config self) out0
                    (getReshapedInputDimensions E netInput size 0)
                    (scoreThreshold (getDefaultParams E fp)) = Ok []).
    { rewrite Hthr. unfold extractBoxes.
      unfold rawOutput, gridSize in Hraw. rewrite Hraw. cbn [bind].
      destruct (extractBoxes_unfold (config self) out0
                  (getReshapedInputDimensions E netInput size 0) (Some t) Hraw)
        as [bT [sT [cT [Hb [Hs [Hc Heq]]]]]].
      unfold extractBoxes in Heq.
      unfold rawOutput, gridSize in Hraw. rewrite Hraw in Heq.
      cbn [bind] in Heq. rewrite Heq. rewrite <- Hnil. unfold specExtract.
      apply concatMapM_flat_map; intros r Hr.
      apply concatMapM_flat_map; intros c Hc'.
      apply concatMapM_flat_map; intros a Ha.
      apply in_seq in Hr, Hc', Ha. rewrite Hn in Hr, Hc'.
      unfold extractSlot, specSlot, objectness. rewrite Hs.
      assert (Hp : passesThreshold (Some t) (sigmoid (tget raw r c a 4)) = false).
      { specialize (Hlow r c a ltac:(lia) ltac:(lia) ltac:(lia)).
        destruct (passesThreshold (Some t) (sigmoid (tget raw r c a 4))) eqn:Hp;
          [| reflexivity].
        apply passesThreshold_nonzero in Hp; lra. }
      rewrite Hp. reflexivity. }
    rewrite (@detect_after_extract E self input fp size netInput out out0 []
               Hsize Hin Hfw Hfirst Hex).
    reflexivity.
Qed.

(** ** The loss *)

Lemma Rsum_squares_nonneg (A : Type) (f : A -> R) (l : list A) :
  0 <= Rsum (map (fun i => f i * f i) l).
Proof.
  induction l as [| a tl IH]; simpl; [lra |].
  pose proof (Rle_0_sqr (f a)) as Hsq. unfold Rsqr in Hsq. lra.
Qed.

Lemma sumAll_square_nonneg (t : Tensor) : 0 <= sumAll (tf_square t).
Proof.
  unfold sumAll, tf_square, tf_map. simpl.
  apply (Rsum_squares_nonneg (entry t)).
Qed.

Lemma computeLossTerm_inv (scale : R) (mask lossTensor t : Tensor) :
  computeLossTerm scale mask lossTensor = Ok t ->
  exists masked,
    tf_mul mask lossTensor = Ok masked /\
    t = mkTensor [] (fun _ => scale * sumAll (tf_square masked)).
Proof.
  unfold computeLossTerm, squaredSumOverMask. intros H.
  invert_bind H. invert_bind Hv. inversion Hv; subst v; clear Hv.
  exists v0. split; [exact Hv0 |].
  unfold tf_mul, tf_binary in H. simpl in H. congruence.
Qed.

Lemma computeLossTerm_nonneg (scale : R) (mask lossTensor t : Tensor) :
  0 <= scale ->
  computeLossTerm scale mask lossTensor = Ok t ->
  0 <= scalarValue t.
Proof.
  intros Hs H. apply computeLossTerm_inv in H.
  destruct H as [masked [_ ->]]. unfold scalarValue; simpl.
  apply Rmult_le_pos; [exact Hs | apply sumAll_square_nonneg].
Qed.

Lemma computeLossTerm_scalar (scale : R) (mask lossTensor t : Tensor) :
  computeLossTerm scale mask lossTensor = Ok t -> shape t = [].
Proof.
  intros H. apply computeLossTerm_inv in H.
  destruct H as [masked [_ ->]]. reflexivity.
Qed.

Lemma tf_add_scalars (a b t : Tensor) :
  shape a = [] -> shape b = [] ->
  tf_add a b = Ok t ->
  shape t = [] /\ scalarValue t = scalarValue a + scalarValue b.
Proof.
  unfold tf_add, tf_binary, scalarValue. intros Ha Hb.
  rewrite Ha, Hb. simpl. intros H. inversion H; subst t; clear H. simpl.
  split; reflexivity.
Qed.

(** What a successful [computeLoss] has computed. *)
Lemma computeLoss_inv (E : Collaborators) (self : TinyYolov2 E)
    (outTensor : Tensor) (groundTruth : list (GroundTruth E))
    (d : Dimensions) (res : LossTerms) :
  computeLoss self outTensor groundTruth d = Ok res ->
  exists trainConfig,
    validateTrainConfig E (config self) = Ok trainConfig /\
    Rmax (width d) (height d) <> 0 /\
    (exists m l, computeLossTerm (noObjectScale trainConfig) m l
                 = Ok (noObjectLoss res)) /\
    (exists m l, computeLossTerm (objectScale trainConfig) m l
                 = Ok (objectLoss res)) /\
    (exists m l, computeLossTerm (coordScale trainConfig) m l
                 = Ok (coordLoss res)) /\
    (if withClassScores (config self)
     then exists m l, computeLossTerm (classScale trainConfig) m l
                      = Ok (classLoss res)
     else classLoss res = tf_scalar 0) /\
    (exists s1 s2,
       tf_add (noObjectLoss res) (objectLoss res) = Ok s1 /\
       tf_add s1 (coordLoss res) = Ok s2 /\
       tf_add s2 (classLoss res) = Ok (totalLoss res)).
Proof.
  unfold computeLoss. intros H.
  invert_bind H. rename v into trainConfig. exists trainConfig.
  split; [exact Hv |].
  destruct (Req_EM_T (Rmax (width d) (height d)) 0) as [E0 | Hne];
    [discriminate H |].
  split; [exact Hne |].
  invert_bind H. rename v into gts.
  invert_bind H. rename v into noObjectMask.
  invert_bind H. rename v into objectMask.
  invert_bind H. rename v into coordMask.
  invert_bind H. rename v into noObj.
  invert_bind H. rename v into objectTensor.
  invert_bind H. rename v into obj.
  invert_bind H. rename v into coordTensor.
  invert_bind H. rename v into coord.
  invert_bind H. rename v into cls.
  invert_bind H. rename v into total.
  inversion H; subst res; clear H. simpl.
  split; [eauto |]. split; [eauto |]. split; [eauto |]. split.
  - destruct (withClassScores (config self)).
    + invert_bind Hv9. eauto.
    + congruence.
  - invert_bind Hv10. invert_bind Hv10. eauto.
Qed.

(** C6. With non-negative scale factors, each of the four loss terms that
    [computeLoss] returns is a scalar greater than or equal to zero. *)
Theorem loss_terms_nonnegative (E : Collaborators) (self : TinyYolov2 E)
    (outTensor : Tensor) (groundTruth : list (GroundTruth E))
    (d : Dimensions) (trainConfig : TrainConfig) (res : LossTerms) :
  validateTrainConfig E (config self) = Ok trainConfig ->
  0 <= noObjectScale trainConfig ->
  0 <= objectScale trainConfig ->
  0 <= coordScale trainConfig ->
  0 <= classScale trainConfig ->
  computeLoss self outTensor groundTruth d = Ok res ->
  0 <= scalarValue (noObjectLoss res) /\
  0 <= scalarValue (objectLoss res) /\
  0 <= scalarValue (coordLoss res) /\
  0 <= scalarValue (classLoss res).
Proof.
  intros Htc Hno Hobj Hcoord Hcls H.
  apply computeLoss_inv in H.
  destruct H as [tc [Htc' [_ [[m1 [l1 H1]] [[m2 [l2 H2]] [[m3 [l3 H3]] [H4 _]]]]]]].
  rewrite Htc in Htc'. inversion Htc'; subst tc; clear Htc'.
  split; [exact (computeLossTerm_nonneg _ _ Hno H1) |].
  split; [exact (computeLossTerm_nonneg _ _ Hobj H2) |].
  split; [exact (computeLossTerm_nonneg _ _ Hcoord H3) |].
  destruct (withClassScores (config self)).
  - destruct H4 as [m4 [l4 H4]]. exact (computeLossTerm_nonneg _ _ Hcls H4).
  - rewrite H4. unfold scalarValue; simpl. lra.
Qed.

(** C7. The total loss that [computeLoss] returns is the sum of the four
    terms it returns, and the class loss is zero when class scores are
    disabled. *)
Theorem total_loss_is_sum (E : Collaborators) (self : TinyYolov2 E)
    (outTensor : Tensor) (groundTruth : list (GroundTruth E))
    (d : Dimensions) (res : LossTerms) :
  computeLoss self outTensor groundTruth d = Ok res ->
  scalarValue (totalLoss res) =
    scalarValue (noObjectLoss res) + scalarValue (objectLoss res)
    + scalarValue (coordLoss res) + scalarValue (classLoss res) /\
  (withClassScores (config self) = false ->
   scalarValue (classLoss res) = 0).
Proof.
  intros H. apply computeLoss_inv in H.
  destruct H as [tc [_ [_ [[m1 [l1 H1]] [[m2 [l2 H2]] [[m3 [l3 H3]]
                 [H4 [s1 [s2 [Ha [Hb Hc]]]]]]]]]]].
  apply computeLossTerm_scalar in H1, H2, H3.
  assert (H4s : shape (classLoss res) = [] /\
                (withClassScores (config self) = false ->
                 scalarValue (classLoss res) = 0)).
  { destruct (withClassScores (config self)).
    - destruct H4 as [m4 [l4 H4]]. apply computeLossTerm_scalar in H4.
      split; [exact H4 | discriminate].
    - rewrite H4. split; [reflexivity | intros _; reflexivity]. }
  destruct H4s as [H4s H4z].
  destruct (tf_add_scalars _ _ H1 H2 Ha) as [Hs1 Hv1].
  destruct (tf_add_scalars _ _ Hs1 H3 Hb) as [Hs2 Hv2].
  destruct (tf_add_scalars _ _ Hs2 H4s Hc) as [_ Hv3].
  split; [| exact H4z]. rewrite Hv3, Hv2, Hv1. reflexivity.
Qed.

(** ** The masks *)

Lemma pick_in_range4 (n1 n2 n3 n4 r c a k : nat) :
  (r < n1)%nat -> (c < n2)%nat -> (a < n3)%nat -> (k < n4)%nat ->
  pick [n1; n2; n3; n4] [r; c; a; k] = [r; c; a; k].
Proof.
  intros Hr Hc Ha Hk. unfold pick. simpl.
  destruct (Nat.eqb_spec n1 1), (Nat.eqb_spec n2 1),
           (Nat.eqb_spec n3 1), (Nat.eqb_spec n4 1);
    repeat f_equal; lia.
Qed.

(** C5. For the masks that the spec describes, the no-object mask and the
    object mask of [computeLoss] are built without an error, add up to the
    score mask at every position, are never both non-zero, and at the score
    channel of every slot exactly one of them is 1: the object mask where a
    ground-truth box is assigned, the no-object mask elsewhere. *)
Theorem loss_masks_partition_score_slots
    (groundTruthBoxes : list GroundTruthWithGridPosition.t)
    (numCells boxEncodingSize numBoxes : nat) :
  let groundTruthMask :=
    MaskModel.createGroundTruthMask groundTruthBoxes numCells boxEncodingSize
      numBoxes in
  let scoreMask :=
    snd (MaskModel.createCoordAndScoreMasks numCells boxEncodingSize numBoxes) in
  exists noObjectMask objectMask,
    noObjectLossMask scoreMask groundTruthMask = Ok noObjectMask /\
    objectLossMask scoreMask groundTruthMask = Ok objectMask /\
    shape noObjectMask = shape scoreMask /\
    shape objectMask = shape scoreMask /\
    forall r c a k,
      (r < numCells)%nat -> (c < numCells)%nat -> (a < numBoxes)%nat ->
      (k < boxEncodingSize)%nat ->
      tget objectMask r c a k + tget noObjectMask r c a k
        = tget scoreMask r c a k /\
      tget objectMask r c a k * tget noObjectMask r c a k = 0 /\
      (k = 4%nat ->
       tget scoreMask r c a k = 1 /\
       (if MaskModel.assigned groundTruthBoxes r c a
        then tget objectMask r c a k = 1 /\ tget noObjectMask r c a k = 0
        else tget objectMask r c a k = 0 /\ tget noObjectMask r c a k = 1)) /\
      (k <> 4%nat ->
       tget objectMask r c a k = 0 /\ tget noObjectMask r c a k = 0).
Proof.
  intros groundTruthMask scoreMask.
  unfold noObjectLossMask, objectLossMask, tf_sub, tf_mul, tf_binary.
  subst groundTruthMask scoreMask.
  cbn [MaskModel.createGroundTruthMask MaskModel.createCoordAndScoreMasks
       snd shape tf_scalar rev app broadcastRev bind].
  rewrite !Nat.eqb_refl. cbn [bind rev app shape].
  eexists _, _. split; [reflexivity |]. split; [reflexivity |].
  split; [reflexivity |]. split; [reflexivity |].
  intros r c a k Hr Hc Ha Hk. unfold tget. cbn [entry].
  rewrite !pick_in_range4 by assumption.
  unfold MaskModel.createGroundTruthMask, tf_scalar. cbn [entry].
  destruct (MaskModel.assigned groundTruthBoxes r c a);
    destruct (Nat.eqb_spec k 4) as [Hk4 | Hk4];
    (split; [lra | split; [lra | split; intros Hk'; try contradiction]]);
    repeat split; lra.
Qed.

(** ** Errors *)

(** C8. Without loaded parameters [forwardInput] raises its error for
    every input, and [detect] ends in an error for every input and every
    forward parameters: it returns no detections. *)
Theorem inference_requires_parameters (E : Collaborators)
    (self : TinyYolov2 E) :
  params self = None ->
  (forall netInput size,
     forwardInput self netInput size
     = Err "TinyYolov2 - load model before inference") /\
  (forall input forwardParams,
     exists msg, detect self input forwardParams = Err msg).
Proof.
  intros Hnone. split.
  - intros netInput size. unfold forwardInput. rewrite Hnone. reflexivity.
  - intros input fp. unfold detect.
    destruct (resolveInputSize E (inputSize (getDefaultParams E fp)))
      as [size |]; [| eexists; reflexivity].
    destruct (toNetInput E input true) as [netInput | msg]; cbn [bind];
      [| eexists; reflexivity].
    unfold forwardInput. rewrite Hnone. cbn [bind]. eexists; reflexivity.
Qed.

(** C9 (amended). When the larger of the reshaped width and height is
    zero, [computeLoss] ends in an error and computes no loss: the error
    of [validateTrainConfig] if the configuration is rejected, and the
    invalid-inputSize error otherwise.  Whenever [computeLoss] returns a
    loss, that maximum is not zero. *)
Theorem computeLoss_rejects_zero_size (E : Collaborators)
    (self : TinyYolov2 E) (outTensor : Tensor)
    (groundTruth : list (GroundTruth E)) (d : Dimensions) :
  (Rmax (width d) (height d) = 0 ->
   (exists msg, computeLoss self outTensor groundTruth d = Err msg) /\
   (forall trainConfig,
      validateTrainConfig E (config self) = Ok trainConfig ->
      computeLoss self outTensor groundTruth d
      = Err "computeLoss - invalid inputSize")) /\
  (forall res,
     computeLoss self outTensor groundTruth d = Ok res ->
     Rmax (width d) (height d) <> 0).
Proof.
  split.
  - intros Hzero. unfold computeLoss.
    destruct (validateTrainConfig E (config self)) as [tc | msg]; cbn [bind].
    + destruct (Req_EM_T (Rmax (width d) (height d)) 0) as [_ | Hne];
        [| contradiction].
      split; [eexists; reflexivity | intros; reflexivity].
    + split; [eexists; reflexivity | intros tc H; discriminate H].
  - intros res H. apply computeLoss_inv in H.
    destruct H as [tc [_ [Hne _]]]. exact Hne.
Qed.

(** ** The configuration *)

(** C10. For a configuration that the constructor accepts, more than one
    class turns class scores on whatever the flag of the configuration
    says, and the box encoding then has [5 + numClasses] values; it has 5
    values exactly when there is at most one class and the flag is not
    set. *)
Theorem class_scores_follow_class_count (E : Collaborators)
    (cfg : TinyYolov2Config) (net : TinyYolov2 E) :
  construct E cfg = Ok net ->
  config net = cfg /\
  ((1 < List.length (Config.classes cfg))%nat ->
   withClassScores cfg = true /\
   boxEncodingSize cfg = (5 + List.length (Config.classes cfg))%nat) /\
  (boxEncodingSize cfg = 5%nat <->
   (List.length (Config.classes cfg) <= 1)%nat /\
   Config.withClassScores cfg <> Some true).
Proof.
  unfold construct. intros H. invert_bind H.
  inversion H; subst net; clear H. split; [reflexivity |].
  unfold validateConfig in Hv.
  destruct (Config.anchors cfg) as [| p ps]; [discriminate Hv |].
  unfold boxEncodingSize in *. unfold withClassScores in *.
  destruct (Config.withClassScores cfg) as [[|] |];
    destruct (Nat.ltb_spec 1 (List.length (Config.classes cfg))) as [Hgt | Hle];
    cbn [andb] in Hv;
    try (destruct (Nat.eqb_spec (List.length (Config.classes cfg)) 0)
           as [H0 | H0]; [discriminate Hv |]).
  all: split; [intros Hlt; split; [reflexivity || lia | lia] |].
  all: split; [intros H5 | intros [Hlen Hflag]]; try split;
    try lia; try congruence.
Qed.

(** ** Greedy suppression *)

Section GreedyProps.

Variable A : Type.
Variable scoreOf : A -> R.
Variable suppresses : A -> A -> bool.

Lemma popBest_nil (l : list A) : popBest scoreOf l = None -> l = [].
Proof.
  destruct l as [| c tl]; [reflexivity |]. simpl.
  destruct (popBest scoreOf tl) as [[m rest] |]; [| discriminate].
  destruct (Rlt_dec (scoreOf c) (scoreOf m)); discriminate.
Qed.

Lemma popBest_some (l : list A) (m : A) (rest : list A) :
  popBest scoreOf l = Some (m, rest) ->
  In m l /\ incl rest l /\ List.length l = S (List.length rest) /\
  forall x, In x l -> scoreOf x <= scoreOf m.
Proof.
  revert m rest; induction l as [| c tl IH]; intros m rest H; simpl in H.
  - discriminate H.
  - destruct (popBest scoreOf tl) as [[m' rest'] |] eqn:Htl.
    + destruct (IH m' rest' eq_refl) as [Hin [Hincl [Hlen Hmax]]].
      destruct (Rlt_dec (scoreOf c) (scoreOf m')) as [Hlt | Hge];
        inversion H; subst m rest; clear H.
      * split; [right; exact Hin |]. split.
        { intros x [-> | Hx]; [left; reflexivity | right; apply Hincl, Hx]. }
        split; [simpl; lia |].
        intros x [-> | Hx]; [lra | apply Hmax, Hx].
      * split; [left; reflexivity |]. split.
        { intros x Hx; right; exact Hx. }
        split; [reflexivity |].
        intros x [-> | Hx]; [lra |]. specialize (Hmax x Hx). lra.
    + apply popBest_nil in Htl. subst tl.
      inversion H; subst m rest; clear H.
      split; [left; reflexivity |]. split; [intros x [] |].
      split; [reflexivity |]. intros x [-> | []]. lra.
Qed.

Section Filter.

Variable P : A -> bool.
Hypothesis P_upward :
  forall x y, scoreOf x <= scoreOf y -> P x = true -> P y = true.

Lemma popBest_filter (l : list A) (m : A) (rest : list A) :
  popBest scoreOf l = Some (m, rest) ->
  (exists x, In x l /\ P x = true) ->
  P m = true /\ popBest scoreOf (filter P l) = Some (m, filter P rest).
Proof.
  revert m rest; induction l as [| c tl IH]; intros m rest H Hex.
  - discriminate H.
  - pose proof (popBest_some _ H) as [_ [_ [_ Hmax]]].
    assert (Pm : P m = true).
    { destruct Hex as [x [Hx Px]]. apply (P_upward (Hmax x Hx) Px). }
    split; [exact Pm |].
    simpl in H. destruct (popBest scoreOf tl) as [[m' rest'] |] eqn:Htl.
    + pose proof (popBest_some _ Htl) as [Hin' [_ [_ Hmax']]].
      destruct (Rlt_dec (scoreOf c) (scoreOf m')) as [Hlt | Hge];
        inversion H; subst m rest; clear H.
      * destruct (IH m' rest' eq_refl) as [_ Hf]; [exists m'; auto |].
        simpl. destruct (P c); simpl; rewrite Hf; [| reflexivity].
        destruct (Rlt_dec (scoreOf c) (scoreOf m')); [reflexivity | contradiction].
      * simpl. rewrite Pm. simpl.
        destruct (popBest scoreOf (filter P tl)) as [[m'' rest''] |] eqn:Hf.
        -- pose proof (popBest_some _ Hf) as [Hin'' _].
           apply filter_In in Hin''. destruct Hin'' as [Hin'' _].
           specialize (Hmax' _ Hin'').
           destruct (Rlt_dec (scoreOf c) (scoreOf m'')); [lra | reflexivity].
        -- apply popBest_nil in Hf. rewrite Hf. reflexivity.
    + apply popBest_nil in Htl. subst tl.
      inversion H; subst m rest; clear H.
      simpl. rewrite Pm. reflexivity.
Qed.

Lemma filter_filter_comm (Q : A -> bool) (l : list A) :
  filter Q (filter P l) = filter P (filter Q l).
Proof.
  induction l as [| c tl IH]; simpl; [reflexivity |].
  destruct (P c) eqn:Pc, (Q c) eqn:Qc; simpl; rewrite ?Pc, ?Qc, IH; reflexivity.
Qed.

Lemma filter_length_le (Q : A -> bool) (l : list A) :
  (List.length (filter Q l) <= List.length l)%nat.
Proof.
  induction l as [| c tl IH]; simpl; [lia |].
  destruct (Q c); simpl; lia.
Qed.

(** Dropping the candidates below a score bound never lets more of them
    survive the suppression. *)
Lemma greedy_filter_length (fuel1 : nat) :
  forall (l : list A) (fuel2 : nat),
    (List.length l <= fuel1)%nat ->
    (List.length (filter P l) <= fuel2)%nat ->
    (List.length (greedy scoreOf suppresses fuel2 (filter P l))
     <= List.length (greedy scoreOf suppresses fuel1 l))%nat.
Proof.
  induction fuel1 as [| fuel1 IH]; intros l fuel2 Hl Hfl.
  - destruct l; [| simpl in Hl; lia]. simpl. destruct fuel2; simpl; lia.
  - destruct fuel2 as [| fuel2]; [simpl; lia |].
    cbn [greedy].
    destruct (popBest scoreOf (filter P l)) as [[m2 rest2] |] eqn:Hp2;
      [| simpl; lia].
    assert (Hex : exists x, In x l /\ P x = true).
    { pose proof (popBest_some _ Hp2) as [Hin _].
      apply filter_In in Hin. exists m2. exact Hin. }
    destruct (popBest scoreOf l) as [[m rest] |] eqn:Hp1.
    + destruct (popBest_filter _ Hp1 Hex) as [_ Hp2'].
      rewrite Hp2 in Hp2'. inversion Hp2'; subst m2 rest2; clear Hp2'.
      pose proof (popBest_some _ Hp1) as [_ [_ [Hlen1 _]]].
      pose proof (popBest_some _ Hp2) as [_ [_ [Hlen2 _]]].
      rewrite filter_filter_comm. simpl.
      apply le_n_S. apply IH.
      * pose proof (filter_length_le (fun c => negb (suppresses m c)) rest). lia.
      * rewrite <- filter_filter_comm.
        pose proof (filter_length_le (fun c => negb (suppresses m c))
                      (filter P rest)). lia.
    + apply popBest_nil in Hp1. subst l. simpl in Hp2. discriminate Hp2.
Qed.

End Filter.

Lemma greedy_incl (fuel : nat) :
  forall l, incl (greedy scoreOf suppresses fuel l) l.
Proof.
  induction fuel as [| fuel IH]; intros l x Hx; simpl in Hx; [contradiction |].
  destruct (popBest scoreOf l) as [[m rest] |] eqn:Hp; [| contradiction].
  pose proof (popBest_some _ Hp) as [Hin [Hincl _]].
  destruct Hx as [<- | Hx]; [exact Hin |].
  apply IH in Hx. apply filter_In in Hx. apply Hincl, Hx.
Qed.

End GreedyProps.

Section GreedyMap.

Variables A B : Type.
Variable h : A -> B.
Variable scoreA : A -> R.
Variable scoreB : B -> R.
Variable supA : A -> A -> bool.
Variable supB : B -> B -> bool.
Hypothesis score_h : forall a, scoreB (h a) = scoreA a.
Hypothesis sup_h : forall a a', supB (h a) (h a') = supA a a'.

Lemma popBest_map (l : list A) :
  popBest scoreB (map h l) =
  match popBest scoreA l with
  | Some (m, rest) => Some (h m, map h rest)
  | None => None
  end.
Proof.
  induction l as [| c tl IH]; simpl; [reflexivity |].
  rewrite IH. destruct (popBest scoreA tl) as [[m rest] |]; [| reflexivity].
  rewrite !score_h.
  destruct (Rlt_dec (scoreA c) (scoreA m)); reflexivity.
Qed.

Lemma filter_map_comm (Q : B -> bool) (l : list A) :
  filter Q (map h l) = map h (filter (fun a => Q (h a)) l).
Proof.
  induction l as [| c tl IH]; simpl; [reflexivity |].
  destruct (Q (h c)); simpl; rewrite IH; reflexivity.
Qed.

Lemma greedy_map (fuel : nat) :
  forall l, greedy scoreB supB fuel (map h l) =
            map h (greedy scoreA supA fuel l).
Proof.
  induction fuel as [| fuel IH]; intros l; simpl; [reflexivity |].
  rewrite popBest_map.
  destruct (popBest scoreA l) as [[m rest] |]; [| reflexivity].
  simpl. f_equal. rewrite filter_map_comm.
  rewrite (filter_ext (fun a => negb (supB (h m) (h a)))
                      (fun c => negb (supA m c)))
    by (intros a; now rewrite sup_h).
  apply IH.
Qed.

End GreedyMap.

(** ** [nonMaxSuppression] *)

Lemma map_snd_combine_seq (A : Type) (l : list A) :
  forall start n, (List.length l <= n)%nat ->
  map snd (combine (seq start n) l) = l.
Proof.
  induction l as [| a tl IH]; intros start n Hn.
  - destruct (seq start n); reflexivity.
  - destruct n as [| n]; [simpl in Hn; lia |].
    simpl. rewrite IH by (simpl in Hn; lia). reflexivity.
Qed.

Lemma combine_seq_index (A : Type) (l : list A) :
  forall start n i x,
    In (i, x) (combine (seq start n) l) ->
    (start <= i < start + List.length l)%nat.
Proof.
  induction l as [| a tl IH]; intros start n i x Hin.
  - destruct (seq start n); contradiction.
  - destruct n as [| n]; [contradiction |].
    simpl in Hin. destruct Hin as [Heq | Hin].
    + inversion Heq; subst. simpl; lia.
    + apply IH in Hin. simpl; lia.
Qed.

Lemma combine_maps (A B C : Type) (f : A -> B) (g : A -> C) (l : list A) :
  combine (map f l) (map g l) = map (fun a => (f a, g a)) l.
Proof.
  induction l as [| a tl IH]; simpl; [reflexivity | now rewrite IH].
Qed.

Lemma nonMaxSuppression_length (boxes : list BoundingBox) (scores : list R)
    (iouThreshold : R) (classAgnostic : bool) :
  List.length (nonMaxSuppression boxes scores iouThreshold classAgnostic) =
  List.length
    (greedy (@snd BoundingBox R) (pairSuppresses iouThreshold)
       (List.length (combine boxes scores)) (combine boxes scores)).
Proof.
  unfold nonMaxSuppression. cbv zeta. rewrite length_map.
  set (cands := combine (seq 0 (List.length boxes)) (combine boxes scores)).
  assert (Hle : (List.length (combine boxes scores) <= List.length boxes)%nat)
    by (rewrite length_combine; lia).
  assert (Hsnd : map snd cands = combine boxes scores)
    by (apply map_snd_combine_seq; exact Hle).
  assert (Hlen : List.length cands = List.length (combine boxes scores))
    by (unfold cands; rewrite length_combine, length_seq; lia).
  unfold Candidate in *. rewrite Hlen.
  pose proof (@greedy_map _ _ (@snd nat (BoundingBox * R)) candScore
                (@snd BoundingBox R)
                (fun best c => overlaps iouThreshold (fst (snd best)) (fst (snd c)))
                (pairSuppresses iouThreshold)
                (fun a => eq_refl) (fun a a' => eq_refl)
                (List.length (combine boxes scores)) cands) as Hg.
  rewrite Hsnd in Hg. rewrite Hg, length_map. reflexivity.
Qed.

Lemma nonMaxSuppression_index (boxes : list BoundingBox) (scores : list R)
    (iouThreshold : R) (classAgnostic : bool) (i : nat) :
  In i (nonMaxSuppression boxes scores iouThreshold classAgnostic) ->
  (i < List.length (combine boxes scores))%nat.
Proof.
  unfold nonMaxSuppression. intros Hin.
  apply in_map_iff in Hin. destruct Hin as [[j p] [Hj Hin]].
  simpl in Hj; subst j. apply greedy_incl in Hin.
  apply combine_seq_index in Hin. lia.
Qed.

(** ** Raising the score threshold *)

Lemma passesThreshold_mono (t1 t2 s : R) :
  t1 <= t2 -> 0 < s ->
  passesThreshold (Some t2) s = true -> passesThreshold (Some t1) s = true.
Proof.
  intros Hle Hs. unfold passesThreshold.
  destruct (Req_EM_T t1 0) as [_ | H1]; [reflexivity |].
  destruct (Rgt_dec s t1) as [_ | Hn1]; [reflexivity |].
  destruct (Req_EM_T t2 0) as [H2 | H2]; [lra |].
  destruct (Rgt_dec s t2) as [Hgt | _]; [lra | trivial].
Qed.

Lemma passesThreshold_upward (t s s' : R) :
  s <= s' ->
  passesThreshold (Some t) s = true -> passesThreshold (Some t) s' = true.
Proof.
  intros Hle. unfold passesThreshold.
  destruct (Req_EM_T t 0) as [_ | H1]; [reflexivity |].
  destruct (Rgt_dec s t) as [Hgt | _]; [| discriminate].
  destruct (Rgt_dec s' t) as [_ | Hn]; [reflexivity | lra].
Qed.

Lemma concatMapM_mono (A B : Type) (f g : A -> Result (list B)) (l : list A) :
  (forall a bs, In a l -> f a = Ok bs ->
     exists bs', g a = Ok bs' /\ (List.length bs' <= List.length bs)%nat) ->
  forall rs, concatMapM f l = Ok rs ->
  exists rs', concatMapM g l = Ok rs' /\
              (List.length rs' <= List.length rs)%nat.
Proof.
  induction l as [| a tl IH]; intros Hfg rs H; simpl in *.
  - inversion H; subst rs. exists []; split; [reflexivity | simpl; lia].
  - invert_bind H. invert_bind H. inversion H; subst rs; clear H.
    destruct (Hfg a v (or_introl eq_refl) Hv) as [bs' [Hg Hlen]].
    destruct (IH (fun b bs Hb => Hfg b bs (or_intror Hb)) v0 Hv0)
      as [rs' [Hrs Hlen']].
    rewrite Hg, Hrs; simpl. exists (bs' ++ rs'). split; [reflexivity |].
    rewrite !length_app. lia.
Qed.

Lemma extractSlot_mono (config : TinyYolov2Config)
    (boxesT scoresT classT : Tensor) (numCells : nat) (cfX cfY t1 t2 : R)
    (r c a : nat) (bs : list ExtractedBox) :
  t1 <= t2 ->
  extractSlot config boxesT scoresT classT numCells cfX cfY (Some t1) r c a
    = Ok bs ->
  exists bs',
    extractSlot config boxesT scoresT classT numCells cfX cfY (Some t2) r c a
      = Ok bs' /\
    (List.length bs' <= List.length bs)%nat.
Proof.
  intros Hle. unfold extractSlot.
  pose proof (sigmoid_pos (tget scoresT r c a 0)) as Hpos.
  destruct (passesThreshold (Some t2) (sigmoid (tget scoresT r c a 0))) eqn:H2.
  - rewrite (passesThreshold_mono Hle Hpos H2).
    intros H. exists bs. split; [exact H | lia].
  - intros _. exists []. split; [reflexivity | simpl; lia].
Qed.

Lemma extractBoxes_mono (config : TinyYolov2Config) (out : Tensor)
    (d : Dimensions) (t1 t2 : R) (results1 : list ExtractedBox) :
  t1 <= t2 ->
  extractBoxes config out d (Some t1) = Ok results1 ->
  exists results2,
    extractBoxes config out d (Some t2) = Ok results2 /\
    (List.length results2 <= List.length results1)%nat.
Proof.
  intros Hle H.
  assert (Hraw : exists raw, rawOutput config out = Ok raw).
  { unfold extractBoxes in H. invert_bind H. exists v. exact Hv. }
  destruct Hraw as [raw Hraw].
  unfold extractBoxes in *. unfold rawOutput, gridSize in Hraw.
  rewrite Hraw in *. cbn [bind] in *.
  destruct (tf_slice raw [0; 0; 0; 0]%nat _) as [boxesT | ?];
    cbn [bind] in *; [| discriminate H].
  destruct (tf_slice raw [0; 0; 0; 4]%nat _) as [scoresT | ?];
    cbn [bind] in *; [| discriminate H].
  match type of H with
  | bind ?cls _ = _ => destruct cls as [classT | ?]
  end; cbn [bind] in *; [| discriminate H].
  apply concatMapM_mono with (2 := H). intros r rs _ Hr.
  apply concatMapM_mono with (2 := Hr). intros c cs _ Hc.
  apply concatMapM_mono with (2 := Hc). intros a bs _ Hbs.
  apply extractSlot_mono with (1 := Hle) (2 := Hbs).
Qed.

Lemma flat_map_filter (A B : Type) (P : B -> bool) (f : A -> list B)
    (l : list A) :
  filter P (flat_map f l) = flat_map (fun a => filter P (f a)) l.
Proof.
  induction l as [| a tl IH]; simpl; [reflexivity |].
  rewrite filter_app, IH. reflexivity.
Qed.

(** Without class scores the score of an entry is the squashed objectness
    of its slot, so the entries above a higher threshold are a filter of
    those above a lower one. *)
Lemma specExtract_filter (config : TinyYolov2Config) (raw : Tensor)
    (d : Dimensions) (t1 t2 : R) :
  withClassScores config = false ->
  t1 <= t2 ->
  specExtract config raw d (Some t2) =
  filter (fun res => passesThreshold (Some t2) (score res))
         (specExtract config raw d (Some t1)).
Proof.
  intros Hw Hle. unfold specExtract.
  rewrite flat_map_filter. apply flat_map_ext; intros r.
  rewrite flat_map_filter. apply flat_map_ext; intros c.
  rewrite flat_map_filter. apply flat_map_ext; intros a.
  unfold specSlot.
  pose proof (sigmoid_pos (tget raw r c a 4)) as Hpos.
  fold (objectness raw r c a) in Hpos.
  assert (Hscore : score (specDetection config raw d r c a)
                   = objectness raw r c a).
  { simpl. unfold specPredictedClass. rewrite Hw. simpl. lra. }
  destruct (passesThreshold (Some t1) (objectness raw r c a)) eqn:H1.
  - cbn [filter]. rewrite Hscore.
    destruct (passesThreshold (Some t2) (objectness raw r c a)); reflexivity.
  - destruct (passesThreshold (Some t2) (objectness raw r c a)) eqn:H2;
      [| reflexivity].
    rewrite (passesThreshold_mono Hle Hpos H2) in H1. discriminate H1.
Qed.

(** ** The number of detections *)

Lemma detect_inv (E : Collaborators) (self : TinyYolov2 E)
    (input : TNetInput E) (forwardParams : TinyYolov2ForwardParams)
    (ds : list (ObjectDetection E)) :
  detect self input forwardParams = Ok ds ->
  exists size netInput out out0 results,
    resolveInputSize E (inputSize (getDefaultParams E forwardParams))
      = Some size /\
    toNetInput E input true = Ok netInput /\
    forwardInput self netInput size = Ok out /\
    firstOfBatch out = Ok out0 /\
    extractBoxes (config self) out0
      (getReshapedInputDimensions E netInput size 0)
      (scoreThreshold (getDefaultParams E forwardParams)) = Ok results.
Proof.
  unfold detect. intros H.
  destruct (resolveInputSize E (inputSize (getDefaultParams E forwardParams)))
    as [size |]; [| discriminate H].
  invert_bind H. rename v into netInput.
  invert_bind H. rename v into out.
  invert_bind H. rename v into out0.
  invert_bind H. rename v into results.
  exists size, netInput, out, out0, results. auto.
Qed.

Lemma detect_count (E : Collaborators) (self : TinyYolov2 E)
    (input : TNetInput E) (forwardParams : TinyYolov2ForwardParams)
    (size : R) (netInput : NetInput E) (out out0 : Tensor)
    (results : list ExtractedBox) :
  resolveInputSize E (inputSize (getDefaultParams E forwardParams))
    = Some size ->
  toNetInput E input true = Ok netInput ->
  forwardInput self netInput size = Ok out ->
  firstOfBatch out = Ok out0 ->
  extractBoxes (config self) out0
    (getReshapedInputDimensions E netInput size 0)
    (scoreThreshold (getDefaultParams E forwardParams)) = Ok results ->
  exists ds,
    detect self input forwardParams = Ok ds /\
    List.length ds =
    List.length
      (nonMaxSuppression (map (fun b => rescale b size) (map box results))
         (map score results) (Config.iouThreshold (config self)) true).
Proof.
  intros Hsize Hin Hfw Hfirst Hex.
  rewrite (@detect_after_extract E self input forwardParams size netInput
             out out0 results Hsize Hin Hfw Hfirst Hex).
  apply concatMapM_singletons. intros idx Hidx.
  apply nonMaxSuppression_index in Hidx.
  rewrite length_combine, !length_map in Hidx.
  destruct (nth_error (map box results) idx) as [b |] eqn:Hb.
  - destruct (nth_error (map score results) idx) as [s |] eqn:Hs.
    + eexists; reflexivity.
    + apply nth_error_None in Hs. rewrite length_map in Hs. lia.
  - apply nth_error_None in Hb. rewrite length_map in Hb. lia.
Qed.

Lemma suppressed_count_filtered (results : list ExtractedBox)
    (size iouThreshold t : R) :
  let kept := filter (fun res => passesThreshold (Some t) (score res)) results in
  (List.length
     (nonMaxSuppression (map (fun b => rescale b size) (map box kept))
        (map score kept) iouThreshold true)
   <= List.length
        (nonMaxSuppression (map (fun b => rescale b size) (map box results))
           (map score results) iouThreshold true))%nat.
Proof.
  intros kept. rewrite !nonMaxSuppression_length.
  rewrite !map_map, !combine_maps.
  set (h := fun res : ExtractedBox => (rescale (box res) size, score res)).
  set (P := fun p : BoundingBox * R => passesThreshold (Some t) (snd p)).
  assert (Hk : map h kept = filter P (map h results)).
  { unfold kept. rewrite filter_map_comm. reflexivity. }
  rewrite Hk.
  apply greedy_filter_length; try lia.
  intros x y Hxy. unfold P. apply passesThreshold_upward. exact Hxy.
Qed.

(** C3 (amended). For thresholds [t1 <= t2] and the same output of the
    network, [extractBoxes] with [t2] succeeds whenever it does with [t1]
    and returns at most as many candidates; and when class scores are
    disabled, [detect] with [t2] succeeds whenever it does with [t1] and
    returns at most as many detections. *)
Theorem raising_threshold_never_adds (E : Collaborators)
    (self : TinyYolov2 E) (t1 t2 : R) :
  t1 <= t2 ->
  (forall out d results1,
     extractBoxes (config self) out d (Some t1) = Ok results1 ->
     exists results2,
       extractBoxes (config self) out d (Some t2) = Ok results2 /\
       (List.length results2 <= List.length results1)%nat) /\
  (withClassScores (config self) = false ->
   forall input forwardParams1 forwardParams2 detections1,
     inputSize (getDefaultParams E forwardParams1)
       = inputSize (getDefaultParams E forwardParams2) ->
     scoreThreshold (getDefaultParams E forwardParams1) = Some t1 ->
     scoreThreshold (getDefaultParams E forwardParams2) = Some t2 ->
     detect self input forwardParams1 = Ok detections1 ->
     exists detections2,
       detect self input forwardParams2 = Ok detections2 /\
       (List.length detections2 <= List.length detections1)%nat).
Proof.
  intros Hle. split.
  - intros out d results1. apply extractBoxes_mono. exact Hle.
  - intros Hw input fp1 fp2 ds1 Hsame Ht1 Ht2 H1.
    destruct (@detect_inv E self input fp1 ds1 H1)
      as [size [netInput [out [out0 [results1 [Hsize [Hin [Hfw [Hfirst Hex1]]]]]]]]].
    rewrite Ht1 in Hex1.
    destruct (@extractBoxes_refines _ _ _ _ _ Hex1) as [raw [Hraw Hres1]].
    assert (Hvalid : validClasses (config self))
      by (unfold validClasses; rewrite Hw; discriminate).
    pose proof (@extractBoxes_total (config self) out0 raw
                  (getReshapedInputDimensions E netInput size 0) (Some t2)
                  Hraw Hvalid) as Hex2.
    rewrite (@specExtract_filter (config self) raw
               (getReshapedInputDimensions E netInput size 0) t1 t2 Hw Hle),
            <- Hres1 in Hex2.
    rewrite <- Ht1 in Hex1. rewrite <- Ht2 in Hex2 at 1.
    destruct (@detect_count E self input fp1 size netInput out out0 _
                Hsize Hin Hfw Hfirst Hex1)
      as [ds1' [Hd1 Hn1]].
    rewrite Hsame in Hsize.
    destruct (@detect_count E self input fp2 size netInput out out0 _
                Hsize Hin Hfw Hfirst Hex2)
      as [ds2 [Hd2 Hn2]].
    rewrite H1 in Hd1. inversion Hd1; subst ds1'; clear Hd1.
    exists ds2. split; [exact Hd2 |]. rewrite Hn1, Hn2.
    apply suppressed_count_filtered.
Qed.

(** ** Examples *)

Lemma sigmoid_le_half (v : R) : v <= 0 -> sigmoid v <= 1 / 2.
Proof.
  intros Hv. unfold sigmoid.
  pose proof (exp_ineq1_le (- v)) as He.
  apply Rmult_le_reg_r with (1 + exp (- v)); [lra |].
  unfold Rdiv at 1. rewrite Rmult_assoc, Rinv_l by lra. lra.
Qed.

Lemma Rmax_same_nonzero (v : R) : v <> 0 -> Rmax v v <> 0.
Proof. intros Hv. unfold Rmax. destruct (Rle_dec v v); exact Hv. Qed.

Lemma quiet_extract (thr : option R) :
  extractBoxes Example.oneAnchor Example.quietOutput (mkDimensions 32 32) thr
  = Ok (specExtract Example.oneAnchor Example.quietOutput (mkDimensions 32 32)
          thr).
Proof.
  apply extractBoxes_total; [reflexivity |].
  unfold validClasses. discriminate.
Qed.

Lemma quiet_computeLoss (w h : R) :
  Rmax w h <> 0 ->
  exists res,
    computeLoss (Example.loaded Example.quietOutput Example.oneAnchor)
      Example.quietOutput [] (mkDimensions w h) = Ok res.
Proof.
  intros Hne. unfold computeLoss.
  cbn [validateTrainConfig Example.network bind width height].
  destruct (Req_EM_T (Rmax w h) 0) as [E0 | _]; [contradiction |].
  eexists. reflexivity.
Qed.

(** C1, instance: one anchor on a 1 x 1 grid, no threshold. *)
Lemma extractBoxes_decodes_geometry_witness :
  exists results,
    extractBoxes Example.oneAnchor Example.quietOutput (mkDimensions 32 32)
      None = Ok results /\
    results <> [] /\
    forall res, In res results ->
      box res = specDecode 0 0 (-1) (-1) (-1) (-1) (Point.mk 1 1) 1
                  (Rmax 32 32 / 32) (Rmax 32 32 / 32).
Proof.
  eexists. split; [apply quiet_extract |]. split; [discriminate |].
  intros res Hin.
  destruct (@extractBoxes_decodes_geometry Example.oneAnchor
              Example.quietOutput (mkDimensions 32 32) None _
              (quiet_extract None)) as [raw [Hraw [Hbox _]]].
  inversion Hraw; subst raw; clear Hraw.
  destruct (Hbox res Hin) as [_ Hb]. rewrite Hb.
  destruct Hin as [<- | []]. reflexivity.
Defined.

(** C4, instance: one anchor on a 1 x 1 grid, no threshold. *)
Lemma extracted_score_in_unit_interval_witness :
  exists results,
    extractBoxes Example.oneAnchor Example.quietOutput (mkDimensions 32 32)
      None = Ok results /\
    results <> [] /\
    forall res, In res results -> 0 <= score res <= 1.
Proof.
  eexists. split; [apply quiet_extract |]. split; [discriminate |].
  intros res Hin.
  destruct (@extracted_score_in_unit_interval Example.oneAnchor
              Example.quietOutput (mkDimensions 32 32) None _
              (quiet_extract None)) as [raw [_ Hscore]].
  exact (proj2 (proj2 (proj2 (Hscore res Hin)))).
Defined.

(** C2, instance: threshold 0.9 and every squashed score at most 1/2;
    [detect] returns no detection and no error. *)
Lemma threshold_filters_slots_witness :
  0 < 9 / 10 /\
  detect (Example.loaded Example.quietOutput Example.oneAnchor) tt
    (Example.withThreshold (9 / 10)) = Ok [].
Proof.
  assert (Ht : 0 < 9 / 10) by lra.
  split; [exact Ht |].
  apply (proj2 (@threshold_filters_slots _
                  (Example.loaded Example.quietOutput Example.oneAnchor)
                  (9 / 10) Ht))
    with (size := 32) (netInput := tt) (out := Example.quietOutput)
         (out0 := mkTensor [1; 1; 1; 5]%nat (fun _ => -1))
         (raw := mkTensor [1; 1; 1; 5]%nat (fun _ => -1));
    try reflexivity.
  intros r c a _ _ _. unfold tget; cbn [entry].
  pose proof (@sigmoid_le_half (-1) ltac:(lra)). lra.
Defined.

(** C6, instance: scale factors 1, 5, 1, 1 on a 1 x 1 grid. *)
Lemma loss_terms_nonnegative_witness :
  exists res,
    computeLoss (Example.loaded Example.quietOutput Example.oneAnchor)
      Example.quietOutput [] (mkDimensions 32 32) = Ok res /\
    0 <= scalarValue (noObjectLoss res) /\
    0 <= scalarValue (objectLoss res) /\
    0 <= scalarValue (coordLoss res) /\
    0 <= scalarValue (classLoss res).
Proof.
  destruct (@quiet_computeLoss 32 32) as [res Hres];
    [apply Rmax_same_nonzero; lra |].
  exists res. split; [exact Hres |].
  apply (@loss_terms_nonnegative _
           (Example.loaded Example.quietOutput Example.oneAnchor)
           Example.quietOutput [] (mkDimensions 32 32)
           (mkTrainConfig 1 5 1 1) res);
    [reflexivity | simpl; lra | simpl; lra | simpl; lra | simpl; lra
     | exact Hres].
Defined.

(** C7, instance: one class, so class scores are disabled. *)
Lemma total_loss_is_sum_witness :
  exists res,
    computeLoss (Example.loaded Example.quietOutput Example.oneAnchor)
      Example.quietOutput [] (mkDimensions 32 32) = Ok res /\
    scalarValue (totalLoss res) =
      scalarValue (noObjectLoss res) + scalarValue (objectLoss res)
      + scalarValue (coordLoss res) + scalarValue (classLoss res) /\
    scalarValue (classLoss res) = 0.
Proof.
  destruct (@quiet_computeLoss 32 32) as [res Hres];
    [apply Rmax_same_nonzero; lra |].
  exists res. split; [exact Hres |].
  destruct (@total_loss_is_sum _ _ _ _ _ res Hres) as [Hsum Hzero].
  split; [exact Hsum | apply Hzero; reflexivity].
Defined.

(** C8, instance: an instance whose parameters were never loaded. *)
Lemma inference_requires_parameters_witness :
  params (mkTinyYolov2 (Example.network Example.quietOutput)
            Example.oneAnchor None) = None /\
  forwardInput (mkTinyYolov2 (Example.network Example.quietOutput)
                  Example.oneAnchor None) tt 32
  = Err "TinyYolov2 - load model before inference" /\
  exists msg,
    detect (mkTinyYolov2 (Example.network Example.quietOutput)
              Example.oneAnchor None) tt (Example.withThreshold (1 / 2))
    = Err msg.
Proof.
  split; [reflexivity |].
  destruct (@inference_requires_parameters _
              (mkTinyYolov2 (Example.network Example.quietOutput)
                 Example.oneAnchor None) eq_refl) as [Hfw Hdet].
  split; [apply Hfw | apply Hdet].
Defined.

(** C9, instance: reshaped dimensions 0 x 0. *)
Lemma computeLoss_rejects_zero_size_witness :
  Rmax 0 0 = 0 /\
  computeLoss (Example.loaded Example.quietOutput Example.oneAnchor)
    Example.quietOutput [] (mkDimensions 0 0)
  = Err "computeLoss - invalid inputSize".
Proof.
  assert (H0 : Rmax 0 0 = 0) by (unfold Rmax; destruct (Rle_dec 0 0); reflexivity).
  split; [exact H0 |].
  destruct (@computeLoss_rejects_zero_size _
              (Example.loaded Example.quietOutput Example.oneAnchor)
              Example.quietOutput [] (mkDimensions 0 0)) as [Hzero _].
  destruct (Hzero H0) as [_ Hmsg].
  apply (Hmsg (mkTrainConfig 1 5 1 1)). reflexivity.
Defined.

(** C10, instance: two classes and no flag give 5 + 2 values per box. *)
Lemma class_scores_follow_class_count_witness :
  construct (Example.network Example.crowdedOutput) Example.threeAnchors
  = Ok (mkTinyYolov2 (Example.network Example.crowdedOutput)
          Example.threeAnchors None) /\
  withClassScores Example.threeAnchors = true /\
  boxEncodingSize Example.threeAnchors = 7%nat.
Proof.
  split; [reflexivity |].
  destruct (@class_scores_follow_class_count
              (Example.network Example.crowdedOutput) Example.threeAnchors _
              eq_refl) as [_ [Hmany _]].
  apply Hmany. simpl. lia.
Defined.

(** C9, counterexample.  A negative maximum of the reshaped width and
    height passes the check of [computeLoss], which goes on to compute a
    loss. *)
Lemma negative_size_passes_the_check :
  Rmax (-1) (-2) <= 0 /\
  exists res,
    computeLoss (Example.loaded Example.quietOutput Example.oneAnchor)
      Example.quietOutput [] (mkDimensions (-1) (-2)) = Ok res.
Proof.
  assert (Hmax : Rmax (-1) (-2) = -1).
  { unfold Rmax. destruct (Rle_dec (-1) (-2)); lra. }
  split; [lra |].
  apply quiet_computeLoss. lra.
Qed.

(** ** More detections under a higher threshold *)

Lemma sigmoid_exp (v : R) : sigmoid v = exp v / (exp v + 1).
Proof.
  unfold sigmoid. rewrite exp_Ropp. pose proof (exp_pos v) as He.
  field. split; [lra |]. lra.
Qed.

Lemma sigmoid_ge (v lo : R) :
  0 < lo -> lo <= exp v -> lo / (lo + 1) <= sigmoid v.
Proof.
  intros Hlo He. rewrite sigmoid_exp.
  apply Rmult_le_reg_r with ((lo + 1) * (exp v + 1)); [nra |].
  replace (lo / (lo + 1) * ((lo + 1) * (exp v + 1))) with (lo * (exp v + 1))
    by (field; lra).
  replace (exp v / (exp v + 1) * ((lo + 1) * (exp v + 1)))
    with (exp v * (lo + 1)) by (field; lra).
  nra.
Qed.

Lemma sigmoid_le (v hi : R) :
  exp v <= hi -> sigmoid v <= hi / (hi + 1).
Proof.
  intros He. pose proof (exp_pos v) as Hpos. rewrite sigmoid_exp.
  apply Rmult_le_reg_r with ((hi + 1) * (exp v + 1)); [nra |].
  replace (hi / (hi + 1) * ((hi + 1) * (exp v + 1))) with (hi * (exp v + 1))
    by (field; lra).
  replace (exp v / (exp v + 1) * ((hi + 1) * (exp v + 1)))
    with (exp v * (hi + 1)) by (field; lra).
  nra.
Qed.

Lemma sigmoid_0 : sigmoid 0 = 1 / 2.
Proof. rewrite sigmoid_exp, exp_0. lra. Qed.

Lemma sigmoid_1_bounds : 2 / 3 <= sigmoid 1 <= 3 / 4.
Proof.
  pose proof (exp_ineq1_le 1) as Hlo. pose proof exp_le_3 as Hhi.
  split.
  - replace (2 / 3) with (2 / (2 + 1)) by lra. apply sigmoid_ge; lra.
  - replace (3 / 4) with (3 / (3 + 1)) by lra. apply sigmoid_le; lra.
Qed.

Lemma sigmoid_4_bound : 5 / 6 <= sigmoid 4.
Proof.
  pose proof (exp_ineq1_le 4) as Hlo.
  replace (5 / 6) with (5 / (5 + 1)) by lra. apply sigmoid_ge; lra.
Qed.

Section GreedyOnPairs.

Variable iouThreshold : R.

Lemma greedy_best_suppresses_two (pA pB pC : BoundingBox * R) :
  snd pB < snd pA -> snd pC < snd pA ->
  pairSuppresses iouThreshold pA pB = true ->
  pairSuppresses iouThreshold pA pC = true ->
  List.length
    (greedy (@snd BoundingBox R) (pairSuppresses iouThreshold) 3
       [pA; pB; pC]) = 1%nat.
Proof.
  intros HB HC HsB HsC. cbn [greedy popBest].
  destruct (Rlt_dec (snd pB) (snd pC)).
  - destruct (Rlt_dec (snd pA) (snd pC)); [lra |].
    cbn [filter]. rewrite HsB, HsC. reflexivity.
  - destruct (Rlt_dec (snd pA) (snd pB)); [lra |].
    cbn [filter]. rewrite HsB, HsC. reflexivity.
Qed.

Lemma greedy_two_apart (pB pC : BoundingBox * R) :
  pairSuppresses iouThreshold pB pC = false ->
  pairSuppresses iouThreshold pC pB = false ->
  List.length
    (greedy (@snd BoundingBox R) (pairSuppresses iouThreshold) 2 [pB; pC])
  = 2%nat.
Proof.
  intros HBC HCB. cbn [greedy popBest].
  destruct (Rlt_dec (snd pB) (snd pC)).
  - cbn [filter]. rewrite HCB. reflexivity.
  - cbn [filter]. rewrite HBC. reflexivity.
Qed.

End GreedyOnPairs.

Section Crowded.

Local Abbreviation cfg := Example.threeAnchors.
Local Abbreviation d := Example.square.
Local Abbreviation out0 := Example.crowdedFirst.
Local Abbreviation raw := Example.crowdedRaw.

Lemma crowded_first : firstOfBatch Example.crowdedOutput = Ok out0.
Proof. reflexivity. Qed.

Lemma crowded_raw : rawOutput cfg out0 = Ok raw.
Proof. reflexivity. Qed.

Lemma crowded_extract (thr : option R) :
  extractBoxes cfg out0 d thr =
  Ok (specSlot cfg raw d thr 0 0 0 ++ specSlot cfg raw d thr 0 0 1
      ++ specSlot cfg raw d thr 0 0 2).
Proof.
  rewrite (@extractBoxes_total cfg out0 raw d thr crowded_raw)
    by (unfold validClasses; discriminate).
  unfold specExtract. cbn [raw shape nth cfg Example.threeAnchors
    Config.anchors List.length seq flat_map].
  rewrite !app_nil_r. reflexivity.
Qed.

Lemma crowded_objectness :
  objectness raw 0 0 0 = sigmoid 1 /\
  objectness raw 0 0 1 = sigmoid 4 /\
  objectness raw 0 0 2 = sigmoid 4.
Proof. repeat split; reflexivity. Qed.

Lemma crowded_boxes :
  box (specDetection cfg raw d 0 0 0) = mkBoundingBox 0 0 1 1 /\
  box (specDetection cfg raw d 0 0 1) = mkBoundingBox 0 (1 / 4) 1 (3 / 4) /\
  box (specDetection cfg raw d 0 0 2) = mkBoundingBox (1 / 4) 0 (3 / 4) 1.
Proof.
  assert (Hcf : Rmax 32 32 / 32 = 1).
  { unfold Rmax. destruct (Rle_dec 32 32); lra. }
  unfold specDetection, specDecode, correctionFactorX, correctionFactorY.
  cbn [box d width height]. rewrite Hcf.
  change (tget raw 0 0 0 0) with 0. change (tget raw 0 0 0 1) with 0.
  change (tget raw 0 0 0 2) with 0. change (tget raw 0 0 0 3) with 0.
  change (tget raw 0 0 1 0) with 0. change (tget raw 0 0 1 1) with 0.
  change (tget raw 0 0 1 2) with 0. change (tget raw 0 0 1 3) with 0.
  change (tget raw 0 0 2 0) with 0. change (tget raw 0 0 2 1) with 0.
  change (tget raw 0 0 2 2) with 0. change (tget raw 0 0 2 3) with 0.
  rewrite sigmoid_0, exp_0.
  cbn [raw shape nth cfg Example.threeAnchors Config.anchors Point.x Point.y INR].
  repeat split; f_equal; lra.
Qed.

Lemma crowded_scores :
  5 / 9 <= score (specDetection cfg raw d 0 0 0) /\
  score (specDetection cfg raw d 0 0 1) < 1 / 2 /\
  score (specDetection cfg raw d 0 0 2) < 1 / 2.
Proof.
  pose proof sigmoid_1_bounds as [H1 _].
  pose proof (sigmoid_lt_1 4) as H4. pose proof (sigmoid_pos 4) as H4'.
  pose proof (exp_ineq1_le 4) as He4.
  destruct crowded_objectness as [HoA [HoB HoC]].
  unfold specDetection. cbn [score]. rewrite HoA, HoB, HoC.
  unfold specPredictedClass.
  cbn [cfg withClassScores Example.threeAnchors Config.withClassScores
       Config.classes List.length Nat.ltb Nat.leb seq map fold_left].
  unfold pickMax, classProbability. cbn [pcScore seq map Rsum fold_right].
  change (tget raw 0 0 0 (5 + 0)) with 4. change (tget raw 0 0 0 (5 + 1)) with 0.
  change (tget raw 0 0 1 (5 + 0)) with 0. change (tget raw 0 0 1 (5 + 1)) with 0.
  change (tget raw 0 0 2 (5 + 0)) with 0. change (tget raw 0 0 2 (5 + 1)) with 0.
  rewrite exp_0.
  assert (Hp : 5 / 6 <= exp 4 / (exp 4 + (1 + 0))).
  { apply Rmult_le_reg_r with (6 * (exp 4 + (1 + 0))); [lra |].
    replace (exp 4 / (exp 4 + (1 + 0)) * (6 * (exp 4 + (1 + 0))))
      with (6 * exp 4) by (field; lra).
    lra. }
  assert (Hhalf : 1 / (1 + (1 + 0)) = 1 / 2) by lra.
  rewrite Hhalf.
  split; [| split].
  - destruct (Rgt_dec (exp 4 / (exp 4 + (1 + 0))) (1 / (exp 4 + (1 + 0))))
      as [_ | Hn]; cbn [pcScore].
    + nra.
    + exfalso. apply Hn. unfold Rdiv.
      apply Rmult_gt_compat_r; [| lra].
      apply Rinv_0_lt_compat. lra.
  - destruct (Rgt_dec (1 / 2) (1 / 2)); cbn [pcScore]; lra.
  - destruct (Rgt_dec (1 / 2) (1 / 2)); cbn [pcScore]; lra.
Qed.

Ltac settle_min_max :=
  repeat match goal with
  | |- context [Rmax ?a ?b] =>
      first [ rewrite (Rmax_left a b) by lra | rewrite (Rmax_right a b) by lra ]
  | |- context [Rmin ?a ?b] =>
      first [ rewrite (Rmin_left a b) by lra | rewrite (Rmin_right a b) by lra ]
  end.

Lemma crowded_overlaps (sA sB sC : R) :
  let pA := (rescale (mkBoundingBox 0 0 1 1) 32, sA) in
  let pB := (rescale (mkBoundingBox 0 (1 / 4) 1 (3 / 4)) 32, sB) in
  let pC := (rescale (mkBoundingBox (1 / 4) 0 (3 / 4) 1) 32, sC) in
  pairSuppresses (2 / 5) pA pB = true /\
  pairSuppresses (2 / 5) pA pC = true /\
  pairSuppresses (2 / 5) pB pC = false /\
  pairSuppresses (2 / 5) pC pB = false.
Proof.
  intros pA pB pC. unfold pairSuppresses, overlaps, pA, pB, pC.
  cbn [fst]. unfold iou, area, rescale.
  cbn [left top right bottom].
  repeat split.
  - settle_min_max. destruct (Rgt_dec _ _) as [_ | Hn]; [reflexivity |].
    exfalso; apply Hn. lra.
  - settle_min_max. destruct (Rgt_dec _ _) as [_ | Hn]; [reflexivity |].
    exfalso; apply Hn. lra.
  - settle_min_max. destruct (Rgt_dec _ _) as [Hgt | _]; [| reflexivity].
    exfalso. lra.
  - settle_min_max. destruct (Rgt_dec _ _) as [Hgt | _]; [| reflexivity].
    exfalso. lra.
Qed.


Lemma crowded_passes :
  passesThreshold (Some (1 / 2)) (objectness raw 0 0 0) = true /\
  passesThreshold (Some (1 / 2)) (objectness raw 0 0 1) = true /\
  passesThreshold (Some (1 / 2)) (objectness raw 0 0 2) = true /\
  passesThreshold (Some (4 / 5)) (objectness raw 0 0 0) = false /\
  passesThreshold (Some (4 / 5)) (objectness raw 0 0 1) = true /\
  passesThreshold (Some (4 / 5)) (objectness raw 0 0 2) = true.
Proof.
  destruct crowded_objectness as [HoA [HoB HoC]]. rewrite HoA, HoB, HoC.
  pose proof sigmoid_1_bounds as [H1 H1'].
  pose proof sigmoid_4_bound as H4.
  repeat split; try (apply passesThreshold_nonzero; lra).
  destruct (passesThreshold (Some (4 / 5)) (sigmoid 1)) eqn:Hp;
    [| reflexivity].
  apply passesThreshold_nonzero in Hp; lra.
Qed.

Lemma crowded_detect (t : R) :
  exists ds,
    detect (Example.loaded Example.crowdedOutput cfg) tt
      (Example.withThreshold t) = Ok ds /\
    List.length ds =
    List.length
      (greedy (@snd BoundingBox R) (pairSuppresses (2 / 5))
         (List.length
            (specSlot cfg raw d (Some t) 0 0 0
             ++ specSlot cfg raw d (Some t) 0 0 1
             ++ specSlot cfg raw d (Some t) 0 0 2))
         (map (fun res => (rescale (box res) 32, score res))
            (specSlot cfg raw d (Some t) 0 0 0
             ++ specSlot cfg raw d (Some t) 0 0 1
             ++ specSlot cfg raw d (Some t) 0 0 2))).
Proof.
  destruct (@detect_count (Example.network Example.crowdedOutput)
              (Example.loaded Example.crowdedOutput cfg) tt
              (Example.withThreshold t) 32 tt Example.crowdedOutput out0 _
              eq_refl eq_refl eq_refl crowded_first
              (crowded_extract (Some t))) as [ds [Hds Hlen]].
  exists ds. split; [exact Hds |]. rewrite Hlen.
  rewrite nonMaxSuppression_length, !map_map, combine_maps, length_map.
  reflexivity.
Qed.

(** C3, counterexample.  With class scores the suppression orders the
    candidates by objectness times class probability, while the threshold
    looks at the objectness alone.  A square box of objectness
    [sigmoid 1] and a confident class overlaps a flat and a tall box of
    objectness [sigmoid 4] and undecided class: at threshold [1/2] it
    suppresses both and one detection is returned, at threshold [4/5] it
    is filtered out and two detections are returned. *)
Lemma higher_threshold_more_detections :
  1 / 2 <= 4 / 5 /\
  exists detections1 detections2,
    detect (Example.loaded Example.crowdedOutput Example.threeAnchors) tt
      (Example.withThreshold (1 / 2)) = Ok detections1 /\
    detect (Example.loaded Example.crowdedOutput Example.threeAnchors) tt
      (Example.withThreshold (4 / 5)) = Ok detections2 /\
    List.length detections1 = 1%nat /\
    List.length detections2 = 2%nat.
Proof.
  split; [lra |].
  destruct (crowded_detect (1 / 2)) as [ds1 [Hd1 Hn1]].
  destruct (crowded_detect (4 / 5)) as [ds2 [Hd2 Hn2]].
  exists ds1, ds2. split; [exact Hd1 |]. split; [exact Hd2 |].
  destruct crowded_passes as [P1 [P2 [P3 [Q1 [Q2 Q3]]]]].
  destruct crowded_boxes as [BA [BB BC]].
  destruct crowded_scores as [SA [SB SC]].
  unfold specSlot in Hn1, Hn2.
  rewrite P1, P2, P3 in Hn1. rewrite Q1, Q2, Q3 in Hn2.
  cbn [app map List.length] in Hn1, Hn2.
  rewrite BA, BB, BC in Hn1. rewrite BB, BC in Hn2.
  pose proof (crowded_overlaps
                (score (specDetection cfg raw d 0 0 0))
                (score (specDetection cfg raw d 0 0 1))
                (score (specDetection cfg raw d 0 0 2)))
    as [OAB [OAC [OBC OCB]]].
  split.
  - rewrite Hn1. apply greedy_best_suppresses_two; cbn [snd]; try lra;
      assumption.
  - rewrite Hn2. apply greedy_two_apart; assumption.
Qed.

End Crowded.

(** C3, instance: thresholds 0.1 and 0.9 without class scores. *)
Lemma raising_threshold_never_adds_witness :
  1 / 10 <= 9 / 10 /\
  exists detections1 detections2,
    detect (Example.loaded Example.quietOutput Example.oneAnchor) tt
      (Example.withThreshold (1 / 10)) = Ok detections1 /\
    detect (Example.loaded Example.quietOutput Example.oneAnchor) tt
      (Example.withThreshold (9 / 10)) = Ok detections2 /\
    (List.length detections2 <= List.length detections1)%nat.
Proof.
  assert (Hle : 1 / 10 <= 9 / 10) by lra.
  split; [exact Hle |].
  destruct (@detect_count (Example.network Example.quietOutput)
              (Example.loaded Example.quietOutput Example.oneAnchor) tt
              (Example.withThreshold (1 / 10)) 32 tt Example.quietOutput
              Example.quietOutput _ eq_refl eq_refl eq_refl eq_refl
              (quiet_extract (Some (1 / 10)))) as [ds1 [Hd1 _]].
  destruct (proj2 (@raising_threshold_never_adds _
                     (Example.loaded Example.quietOutput Example.oneAnchor)
                     (1 / 10) (9 / 10) Hle)
              eq_refl tt (Example.withThreshold (1 / 10))
              (Example.withThreshold (9 / 10)) ds1 eq_refl eq_refl eq_refl Hd1)
    as [ds2 [Hd2 Hlen]].
  exists ds1, ds2. auto.
Defined.
(** * Further properties of the code *)

(** ** The predicted class *)

Section ArgMax.

Variable g : nat -> R.

Lemma fold_pickMax_leads (n : nat) :
  forall lo s acc,
    leads g lo s acc ->
    leads g lo (s + n)
      (fold_left pickMax (map (fun i => mkPredictedClass (g i) i) (seq s n)) acc).
Proof.
  induction n as [| n IH]; intros lo s acc Hacc.
  - rewrite Nat.add_0_r. exact Hacc.
  - cbn [seq map fold_left].
    replace (s + S n)%nat with (S s + n)%nat by lia. apply IH.
    destruct Hacc as [Hl [Hs [Hmax Hstrict]]].
    unfold leads, pickMax. cbn [pcScore].
    destruct (Rgt_dec (pcScore acc) (g s)) as [Hgt | Hle].
    + split; [lia | split; [exact Hs | split]].
      * intros i Hi. destruct (Nat.eq_dec i s) as [-> | Hne]; [lra |].
        apply Hmax; lia.
      * intros i Hi. destruct (Nat.eq_dec i s) as [-> | Hne]; [lra |].
        apply Hstrict; lia.
    + cbn [pcLabel pcScore]. split; [lia | split; [reflexivity | split]].
      * intros i Hi. destruct (Nat.eq_dec i s) as [-> | Hne]; [lra |].
        assert (g i <= pcScore acc) by (apply Hmax; lia). lra.
      * intros i Hi. lia.
Qed.

End ArgMax.

Lemma reduce_pickMax_leads (g : nat -> R) (n : nat) (pc : PredictedClass) :
  js_reduce pickMax (map (fun i => mkPredictedClass (g i) i) (seq 0 n)) = Ok pc ->
  leads g 0 n pc.
Proof.
  destruct n as [| n]; cbn [seq map js_reduce]; intros H; [discriminate H |].
  inversion H; subst pc; clear H.
  change (S n) with (1 + n)%nat. apply fold_pickMax_leads.
  unfold leads; cbn [pcLabel pcScore].
  split; [lia | split; [reflexivity | split]].
  - intros i Hi. replace i with 0%nat by lia. lra.
  - intros i Hi. lia.
Qed.

(** X1. [extractPredictedClass] returns the arg-max of the class scores of
    the slot: its label is a class index, its score is the class score at
    that label, no class score is greater, and every later class has a
    strictly smaller score (among equal scores the last label wins). *)
Theorem predicted_class_is_last_argmax (config : TinyYolov2Config)
    (classesTensor : Tensor) (r c a : nat) (pc : PredictedClass) :
  extractPredictedClass config classesTensor r c a = Ok pc ->
  (pcLabel pc < List.length (Config.classes config))%nat /\
  pcScore pc = tget classesTensor r c a (pcLabel pc) /\
  (forall i, (i < List.length (Config.classes config))%nat ->
             tget classesTensor r c a i <= pcScore pc) /\
  (forall i, (pcLabel pc < i < List.length (Config.classes config))%nat ->
             tget classesTensor r c a i < pcScore pc).
Proof.
  intros H. rewrite extractPredictedClass_list in H.
  apply (reduce_pickMax_leads (fun i => tget classesTensor r c a i)) in H.
  destruct H as [Hl [Hs [Hmax Hstrict]]].
  split; [lia | split; [exact Hs | split]].
  - intros i Hi. apply Hmax. lia.
  - exact Hstrict.
Qed.

(** X1, instance: the two class values of the first anchor of a 1 x 1
    grid. *)
Lemma predicted_class_is_last_argmax_witness :
  exists pc,
    extractPredictedClass Example.threeAnchors Example.crowdedRaw 0 0 0 = Ok pc /\
    (pcLabel pc < 2)%nat /\
    pcScore pc = tget Example.crowdedRaw 0 0 0 (pcLabel pc).
Proof.
  eexists. split; [reflexivity |].
  destruct (@predicted_class_is_last_argmax Example.threeAnchors
              Example.crowdedRaw 0 0 0 _ eq_refl) as [Hl [Hs _]].
  split; [exact Hl | exact Hs].
Defined.

(** ** Errors of [extractBoxes] *)

Lemma concatMapM_Err (A B : Type) (f : A -> Result (list B)) (l : list A) :
  (exists a msg, In a l /\ f a = Err msg) ->
  exists msg, concatMapM f l = Err msg.
Proof.
  induction l as [| a tl IH]; intros [b [msg [Hin Hb]]]; [contradiction |].
  cbn [concatMapM]. destruct (f a) as [bs | m] eqn:Hfa; cbn [bind].
  - destruct Hin as [-> | Hin]; [congruence |].
    destruct IH as [m Hm]; [exists b, msg; auto |].
    rewrite Hm. cbn [bind]. eexists; reflexivity.
  - eexists; reflexivity.
Qed.

Lemma extractSlot_no_classes (config : TinyYolov2Config)
    (boxesT scoresT classT : Tensor) (n : nat) (cfX cfY : R)
    (thr : option R) (r c a : nat) :
  withClassScores config = true ->
  Config.classes config = [] ->
  passesThreshold thr (sigmoid (tget scoresT r c a 0)) = true ->
  extractSlot config boxesT scoresT classT n cfX cfY thr r c a
  = Err "Reduce of empty array with no initial value".
Proof.
  intros Hw Hc Hp. unfold extractSlot. rewrite Hp, Hw.
  unfold extractPredictedClass. rewrite Hc. reflexivity.
Qed.

Lemma flat_map_nil (A B : Type) (l : list A) :
  flat_map (fun _ : A => @nil B) l = [].
Proof. induction l as [| a tl IH]; [reflexivity | exact IH]. Qed.

Lemma in_allSlots (n b r c a : nat) :
  In (r, c, a) (allSlots n b) <-> (r < n /\ c < n /\ a < b)%nat.
Proof.
  unfold allSlots. split.
  - intros H. apply in_flat_map in H. destruct H as [r' [Hr H]].
    apply in_flat_map in H. destruct H as [c' [Hc H]].
    apply in_map_iff in H. destruct H as [a' [Heq Ha]].
    inversion Heq; subst. apply in_seq in Hr, Hc, Ha. lia.
  - intros [Hr [Hc Ha]].
    apply in_flat_map. exists r. split; [apply in_seq; lia |].
    apply in_flat_map. exists c. split; [apply in_seq; lia |].
    apply in_map. apply in_seq; lia.
Qed.

Lemma some_or_none (A : Type) (P : A -> bool) (l : list A) :
  (exists a, In a l /\ P a = true) \/ (forall a, In a l -> P a = false).
Proof.
  induction l as [| a tl [[b [Hin Hb]] | Hno]].
  - right. intros a [].
  - left. exists b. split; [right; exact Hin | exact Hb].
  - destruct (P a) eqn:Ha.
    + left. exists a. split; [left; reflexivity | exact Ha].
    + right. intros b [<- | Hin]; [exact Ha | apply Hno, Hin].
Qed.

Lemma slot_search (thr : option R) (raw : Tensor) (n b : nat) :
  (exists r c a,
     (r < n)%nat /\ (c < n)%nat /\ (a < b)%nat /\
     passesThreshold thr (sigmoid (tget raw r c a 4)) = true) \/
  (forall r c a,
     (r < n)%nat -> (c < n)%nat -> (a < b)%nat ->
     passesThreshold thr (sigmoid (tget raw r c a 4)) = false).
Proof.
  destruct (some_or_none (slotPasses thr raw) (allSlots n b))
    as [[[[r c] a] [Hin Hp]] | Hno].
  - left. exists r, c, a. apply in_allSlots in Hin.
    destruct Hin as [Hr [Hc Ha]]. auto.
  - right. intros r c a Hr Hc Ha.
    apply (Hno (r, c, a)). apply in_allSlots. auto.
Qed.

Section NoClasses.

Variable config : TinyYolov2Config.
Variables out raw : Tensor.
Variable d : Dimensions.
Variable thr : option R.

Hypothesis forced : withClassScores config = true.
Hypothesis no_classes : Config.classes config = [].
Hypothesis view : rawOutput config out = Ok raw.

Lemma extractBoxes_nothing_passes :
  (forall r c a,
      (r < gridSize out)%nat -> (c < gridSize out)%nat ->
      (a < List.length (Config.anchors config))%nat ->
      passesThreshold thr (sigmoid (tget raw r c a 4)) = false) ->
  extractBoxes config out d thr = Ok [].
Proof.
  pose proof (rawOutput_shape _ _ view) as Hshape.
  assert (Hn : nth 0 (shape raw) 0%nat = gridSize out)
    by (rewrite Hshape; reflexivity).
  destruct (extractBoxes_unfold config out d thr view)
    as [bT [sT [cT [Hb [Hs [_ Heq]]]]]].
  intros Hno. rewrite Heq, Hn.
  rewrite (@concatMapM_flat_map _ _ _ (fun _ => @nil ExtractedBox)).
  - now rewrite flat_map_nil.
  - intros r Hr.
    rewrite (@concatMapM_flat_map _ _ _ (fun _ => @nil ExtractedBox)).
    + now rewrite flat_map_nil.
    + intros c Hc'.
      rewrite (@concatMapM_flat_map _ _ _ (fun _ => @nil ExtractedBox)).
      * now rewrite flat_map_nil.
      * intros a Ha. apply in_seq in Hr, Hc', Ha.
        unfold extractSlot. rewrite Hs, Hno by lia. reflexivity.
Qed.

Lemma extractBoxes_fails_without_classes :
  (exists r c a,
      (r < gridSize out)%nat /\ (c < gridSize out)%nat /\
      (a < List.length (Config.anchors config))%nat /\
      passesThreshold thr (sigmoid (tget raw r c a 4)) = true) ->
  exists msg, extractBoxes config out d thr = Err msg.
Proof.
  pose proof (rawOutput_shape _ _ view) as Hshape.
  assert (Hn : nth 0 (shape raw) 0%nat = gridSize out)
    by (rewrite Hshape; reflexivity).
  destruct (extractBoxes_unfold config out d thr view)
    as [bT [sT [cT [Hb [Hs [_ Heq]]]]]].
  intros [r [c [a [Hr [Hc' [Ha Hp]]]]]]. rewrite Heq, Hn.
  apply concatMapM_Err. exists r.
  assert (Hinner : exists msg,
    concatMapM (fun col =>
      concatMapM (fun anchor =>
        extractSlot config bT sT cT (gridSize out) (correctionFactorX d)
          (correctionFactorY d) thr r col anchor)
        (seq 0 (List.length (Config.anchors config))))
      (seq 0 (gridSize out)) = Err msg).
  { apply concatMapM_Err. exists c.
    assert (Hin2 : exists msg,
      concatMapM (fun anchor =>
        extractSlot config bT sT cT (gridSize out) (correctionFactorX d)
          (correctionFactorY d) thr r c anchor)
        (seq 0 (List.length (Config.anchors config))) = Err msg).
    { apply concatMapM_Err. exists a. eexists. split; [apply in_seq; lia |].
      apply extractSlot_no_classes; auto. rewrite Hs. exact Hp. }
    destruct Hin2 as [m Hm]. exists m. split; [apply in_seq; lia | exact Hm]. }
  destruct Hinner as [m Hm]. exists m. split; [apply in_seq; lia | exact Hm].
Qed.

End NoClasses.

(** X2. When class scores are forced by the flag of the configuration but
    the class list is empty, [extractBoxes] on a well-shaped output ends in
    an error exactly when some slot passes the score filter (the reduction
    over the classes has nothing to start from); when no slot passes it
    returns the empty list. *)
Theorem extractBoxes_without_classes (config : TinyYolov2Config)
    (out raw : Tensor) (d : Dimensions) (thr : option R) :
  withClassScores config = true ->
  Config.classes config = [] ->
  rawOutput config out = Ok raw ->
  ((exists msg, extractBoxes config out d thr = Err msg) <->
   (exists r c a,
      (r < gridSize out)%nat /\ (c < gridSize out)%nat /\
      (a < List.length (Config.anchors config))%nat /\
      passesThreshold thr (sigmoid (tget raw r c a 4)) = true)) /\
  ((forall r c a,
      (r < gridSize out)%nat -> (c < gridSize out)%nat ->
      (a < List.length (Config.anchors config))%nat ->
      passesThreshold thr (sigmoid (tget raw r c a 4)) = false) ->
   extractBoxes config out d thr = Ok []).
Proof.
  intros Hw Hc Hraw.
  split; [| apply extractBoxes_nothing_passes; assumption]. split.
  - intros [msg Herr].
    destruct (slot_search thr raw (gridSize out)
                (List.length (Config.anchors config))) as [Hsome | Hno];
      [exact Hsome |].
    rewrite (@extractBoxes_nothing_passes config out raw d thr Hraw Hno)
      in Herr.
    discriminate Herr.
  - apply extractBoxes_fails_without_classes; assumption.
Qed.

(** ** The order of the entries *)

Lemma map_over_flat_map (A B C : Type) (g : B -> C) (f : A -> list B)
    (l : list A) :
  map g (flat_map f l) = flat_map (fun x => map g (f x)) l.
Proof.
  induction l as [| a tl IH]; cbn [flat_map map]; [reflexivity |].
  rewrite map_app, IH. reflexivity.
Qed.

Lemma filter_of_map (A B : Type) (P : B -> bool) (h : A -> B) (l : list A) :
  filter P (map h l) = flat_map (fun x => if P (h x) then [h x] else []) l.
Proof.
  induction l as [| a tl IH]; cbn [map filter flat_map]; [reflexivity |].
  rewrite IH. destruct (P (h a)); reflexivity.
Qed.

Lemma NoDup_flat_map (A B : Type) (f : A -> list B) (l : list A) :
  NoDup l ->
  (forall x, In x l -> NoDup (f x)) ->
  (forall x y z, In x l -> In y l -> In z (f x) -> In z (f y) -> x = y) ->
  NoDup (flat_map f l).
Proof.
  induction l as [| a tl IH]; intros Hl Hf Hsep; cbn [flat_map];
    [constructor |].
  apply NoDup_cons_iff in Hl. destruct Hl as [Hnotin Htl].
  apply NoDup_app.
  - apply Hf. left; reflexivity.
  - apply IH; [exact Htl | intros x Hx; apply Hf; right; exact Hx |].
    intros x y z Hx Hy. apply Hsep; right; assumption.
  - intros z Hz Hz'. apply in_flat_map in Hz'. destruct Hz' as [y [Hy Hzy]].
    assert (a = y)
      by (apply (Hsep a y z); [left; reflexivity | right; exact Hy | | ];
          assumption).
    subst y. contradiction.
Qed.

Lemma NoDup_map_injective (A B : Type) (f : A -> B) (l : list A) :
  (forall a a', f a = f a' -> a = a') -> NoDup l -> NoDup (map f l).
Proof.
  intros Hinj. induction l as [| a tl IH]; intros Hl; cbn [map];
    [constructor |].
  apply NoDup_cons_iff in Hl. destruct Hl as [Hnotin Htl].
  constructor; [| apply IH, Htl].
  intros Hin. apply in_map_iff in Hin. destruct Hin as [a' [Heq Hin]].
  apply Hinj in Heq. subst a'. contradiction.
Qed.

Lemma allSlots_NoDup (n b : nat) : NoDup (allSlots n b).
Proof.
  unfold allSlots. apply NoDup_flat_map.
  - apply seq_NoDup.
  - intros r _. apply NoDup_flat_map.
    + apply seq_NoDup.
    + intros c _. apply NoDup_map_injective; [| apply seq_NoDup].
      intros a a' H. inversion H. reflexivity.
    + intros c c' z _ _ Hz Hz'.
      apply in_map_iff in Hz, Hz'.
      destruct Hz as [a [<- _]]. destruct Hz' as [a' [H _]].
      inversion H. reflexivity.
  - intros r r' z _ _ Hz Hz'.
    apply in_flat_map in Hz, Hz'.
    destruct Hz as [c [_ Hz]]. destruct Hz' as [c' [_ Hz']].
    apply in_map_iff in Hz, Hz'.
    destruct Hz as [a [<- _]]. destruct Hz' as [a' [H _]].
    inversion H. reflexivity.
Qed.

Lemma allSlots_length (n b : nat) :
  List.length (allSlots n b) = (n * n * b)%nat.
Proof.
  unfold allSlots.
  rewrite (@flat_map_constant_length _ _ (n * b)%nat).
  - rewrite length_seq. lia.
  - intros r _. rewrite (@flat_map_constant_length _ _ b).
    + rewrite length_seq. reflexivity.
    + intros c _. rewrite length_map, length_seq. reflexivity.
Qed.

Lemma specExtract_slots (config : TinyYolov2Config) (raw : Tensor)
    (d : Dimensions) (thr : option R) :
  specExtract config raw d thr =
  map (fun slot => specDetection config raw d (fst (fst slot)) (snd (fst slot))
                     (snd slot))
      (filter (slotPasses thr raw)
         (allSlots (nth 0 (shape raw) 0%nat)
                   (List.length (Config.anchors config)))).
Proof.
  unfold specExtract, allSlots.
  rewrite flat_map_filter, map_over_flat_map. apply flat_map_ext; intros r.
  rewrite flat_map_filter, map_over_flat_map. apply flat_map_ext; intros c.
  rewrite filter_of_map, map_over_flat_map. apply flat_map_ext; intros a.
  unfold specSlot, slotPasses, objectness. cbn [fst snd].
  destruct (passesThreshold thr (sigmoid (tget raw r c a 4))); reflexivity.
Qed.

Lemma extractBoxes_positions (config : TinyYolov2Config)
    (out : Tensor) (d : Dimensions) (thr : option R)
    (results : list ExtractedBox) :
  extractBoxes config out d thr = Ok results ->
  exists raw,
    rawOutput config out = Ok raw /\
    results =
      map (fun slot => specDetection config raw d (fst (fst slot))
                         (snd (fst slot)) (snd slot))
          (filter (slotPasses thr raw)
             (allSlots (gridSize out) (List.length (Config.anchors config)))) /\
    map slotOf results =
      filter (slotPasses thr raw)
        (allSlots (gridSize out) (List.length (Config.anchors config))).
Proof.
  intros H. destruct (@extractBoxes_refines _ _ _ _ _ H) as [raw [Hraw ->]].
  pose proof (rawOutput_shape _ _ Hraw) as Hshape.
  assert (Hn : nth 0 (shape raw) 0%nat = gridSize out)
    by (rewrite Hshape; reflexivity).
  exists raw. split; [exact Hraw |].
  rewrite specExtract_slots, Hn. split; [reflexivity |].
  rewrite map_map.
  rewrite <- (map_id (filter _ _)) at 2. apply map_ext.
  intros [[r c] a]. reflexivity.
Qed.

(** X3. The entries that [extractBoxes] returns follow the order of its
    loops: their positions are the slots that pass the score filter, in
    row, column, anchor order, so no position occurs twice. *)
Theorem extractBoxes_keeps_slot_order (config : TinyYolov2Config)
    (out : Tensor) (d : Dimensions) (thr : option R)
    (results : list ExtractedBox) :
  extractBoxes config out d thr = Ok results ->
  exists raw,
    rawOutput config out = Ok raw /\
    map slotOf results =
      filter (slotPasses thr raw)
        (allSlots (gridSize out) (List.length (Config.anchors config))) /\
    NoDup (map slotOf results).
Proof.
  intros H. destruct (@extractBoxes_positions _ _ _ _ _ H) as [raw [Hraw [_ Hpos]]].
  exists raw. split; [exact Hraw |]. split; [exact Hpos |]. rewrite Hpos.
  apply NoDup_filter, allSlots_NoDup.
Qed.

Lemma filter_all (A : Type) (P : A -> bool) (l : list A) :
  (forall a, In a l -> P a = true) -> filter P l = l.
Proof.
  induction l as [| a tl IH]; intros H; cbn [filter]; [reflexivity |].
  rewrite (H a (or_introl eq_refl)), IH; [reflexivity |].
  intros b Hb. apply H. right; exact Hb.
Qed.

Lemma passesThreshold_nonpositive (t s : R) :
  t <= 0 -> 0 < s -> passesThreshold (Some t) s = true.
Proof.
  intros Ht Hs. unfold passesThreshold.
  destruct (Req_EM_T t 0); [reflexivity |].
  destruct (Rgt_dec s t); [reflexivity | lra].
Qed.

(** X4. Without a score threshold, and also with a threshold that is zero
    or negative, [extractBoxes] keeps every slot: it returns one entry per
    row, column and anchor, [numCells * numCells * numBoxes] in all, in the
    order of the loops. *)
Theorem extractBoxes_without_threshold (config : TinyYolov2Config)
    (out : Tensor) (d : Dimensions) (thr : option R)
    (results : list ExtractedBox) :
  (thr = None \/ exists t, thr = Some t /\ t <= 0) ->
  extractBoxes config out d thr = Ok results ->
  map slotOf results =
    allSlots (gridSize out) (List.length (Config.anchors config)) /\
  List.length results =
    (gridSize out * gridSize out * List.length (Config.anchors config))%nat.
Proof.
  intros Hthr H.
  destruct (@extractBoxes_positions _ _ _ _ _ H) as [raw [_ [_ Hpos]]].
  assert (Hall : map slotOf results =
                 allSlots (gridSize out) (List.length (Config.anchors config))).
  { rewrite Hpos. apply filter_all. intros slot _. unfold slotPasses.
    destruct Hthr as [-> | [t [-> Ht]]]; [reflexivity |].
    apply passesThreshold_nonpositive; [exact Ht | apply sigmoid_pos]. }
  split; [exact Hall |].
  rewrite <- (length_map slotOf), Hall. apply allSlots_length.
Qed.

(** ** Filtering and decoding are independent *)

Lemma extractSlot_thresholded (config : TinyYolov2Config)
    (boxesT scoresT classT : Tensor) (numCells : nat) (cfX cfY : R)
    (thr : option R) (r c a : nat) (bs : list ExtractedBox) :
  extractSlot config boxesT scoresT classT numCells cfX cfY None r c a
    = Ok bs ->
  exists bs',
    extractSlot config boxesT scoresT classT numCells cfX cfY thr r c a
      = Ok bs' /\
    (List.length bs' <= List.length bs)%nat.
Proof.
  unfold extractSlot. cbn [passesThreshold].
  destruct (passesThreshold thr (sigmoid (tget scoresT r c a 0))).
  - intros H. exists bs. split; [exact H | lia].
  - intros _. exists []. split; [reflexivity | simpl; lia].
Qed.

Lemma extractBoxes_thresholded (config : TinyYolov2Config) (out : Tensor)
    (d : Dimensions) (thr : option R) (every : list ExtractedBox) :
  extractBoxes config out d None = Ok every ->
  exists results, extractBoxes config out d thr = Ok results.
Proof.
  intros H.
  assert (Hraw : exists raw, rawOutput config out = Ok raw).
  { unfold extractBoxes in H. invert_bind H. exists v. exact Hv. }
  destruct Hraw as [raw Hraw].
  unfold extractBoxes in *. unfold rawOutput, gridSize in Hraw.
  rewrite Hraw in *. cbn [bind] in *.
  destruct (tf_slice raw [0; 0; 0; 0]%nat _) as [boxesT | ?];
    cbn [bind] in *; [| discriminate H].
  destruct (tf_slice raw [0; 0; 0; 4]%nat _) as [scoresT | ?];
    cbn [bind] in *; [| discriminate H].
  match type of H with
  | bind ?cls _ = _ => destruct cls as [classT | ?]
  end; cbn [bind] in *; [| discriminate H].
  assert (Hm : exists rs',
    concatMapM (fun row =>
      concatMapM (fun col =>
        concatMapM (fun anchor =>
          extractSlot config boxesT scoresT classT (nth 1 (shape out) 0%nat)
            (Rmax (width d) (height d) / width d)
            (Rmax (width d) (height d) / height d) thr row col anchor)
          (seq 0 (List.length (Config.anchors config))))
        (seq 0 (nth 1 (shape out) 0%nat)))
      (seq 0 (nth 1 (shape out) 0%nat)) = Ok rs' /\
    (List.length rs' <= List.length every)%nat).
  { apply concatMapM_mono with (2 := H). intros r rs _ Hr.
    apply concatMapM_mono with (2 := Hr). intros c cs _ Hc.
    apply concatMapM_mono with (2 := Hc). intros a bs _ Hbs.
    apply extractSlot_thresholded with (1 := Hbs). }
  destruct Hm as [rs' [Hrs _]]. exists rs'. exact Hrs.
Qed.

(** X5. A score threshold only removes entries.  When [extractBoxes]
    succeeds without a threshold it succeeds with every threshold, and the
    thresholded result is the unfiltered result restricted to the slots
    whose squashed objectness passes: boxes, scores, labels and order of
    the kept entries are unchanged. *)
Theorem threshold_only_removes_entries (config : TinyYolov2Config)
    (out : Tensor) (d : Dimensions) (thr : option R)
    (every : list ExtractedBox) :
  extractBoxes config out d None = Ok every ->
  exists raw results,
    rawOutput config out = Ok raw /\
    extractBoxes config out d thr = Ok results /\
    results = filter (fun res => slotPasses thr raw (slotOf res)) every.
Proof.
  intros Hall.
  destruct (@extractBoxes_thresholded _ _ _ thr _ Hall) as [results Hres].
  destruct (@extractBoxes_positions _ _ _ _ _ Hall) as [raw [Hraw [Eall _]]].
  destruct (@extractBoxes_positions _ _ _ _ _ Hres) as [raw' [Hraw' [Eres _]]].
  rewrite Hraw in Hraw'. inversion Hraw'; subst raw'; clear Hraw'.
  exists raw, results. split; [exact Hraw |]. split; [exact Hres |].
  rewrite Eres, Eall.
  assert (Hkeep : filter (slotPasses None raw)
                    (allSlots (gridSize out)
                       (List.length (Config.anchors config)))
                  = allSlots (gridSize out)
                      (List.length (Config.anchors config)))
    by (apply filter_all; intros slot _; reflexivity).
  rewrite Hkeep.
  rewrite filter_map_comm. reflexivity.
Qed.

(** ** The score of an entry *)

Lemma Rsum_scaled (A : Type) (f : A -> R) (s : R) (l : list A) :
  Rsum (map (fun i => f i / s) l) = Rsum (map f l) / s.
Proof.
  induction l as [| a tl IH]; cbn [map Rsum fold_right].
  - unfold Rdiv. ring.
  - fold (Rsum (map (fun i => f i / s) tl)). fold (Rsum (map f tl)).
    rewrite IH. unfold Rdiv. ring.
Qed.

Lemma Rsum_bounded (f : nat -> R) (m : R) (l : list nat) :
  (forall i, In i l -> f i <= m) ->
  Rsum (map f l) <= INR (List.length l) * m.
Proof.
  induction l as [| a tl IH]; intros H.
  - simpl. lra.
  - cbn [map Rsum fold_right]. fold (Rsum (map f tl)).
    change (List.length (a :: tl)) with (S (List.length tl)).
    rewrite S_INR.
    assert (f a <= m) by (apply H; left; reflexivity).
    assert (Rsum (map f tl) <= INR (List.length tl) * m)
      by (apply IH; intros i Hi; apply H; right; exact Hi).
    lra.
Qed.

Lemma classProbability_total (raw : Tensor) (numClasses r c a : nat) :
  (0 < numClasses)%nat ->
  Rsum (map (classProbability raw numClasses r c a) (seq 0 numClasses)) = 1.
Proof.
  intros Hpos. unfold classProbability.
  rewrite (Rsum_scaled (fun i => exp (tget raw r c a (5 + i)))).
  assert (Hsum : 0 < Rsum (map (fun k => exp (tget raw r c a (5 + k)))
                             (seq 0 numClasses))).
  { apply (Rsum_exp_pos (fun k => tget raw r c a (5 + k))).
    destruct numClasses; [lia | discriminate]. }
  unfold Rdiv. apply Rinv_r. lra.
Qed.

Lemma specPredictedClass_leads (config : TinyYolov2Config) (raw : Tensor)
    (r c a : nat) :
  withClassScores config = true ->
  Config.classes config <> [] ->
  leads (classProbability raw (List.length (Config.classes config)) r c a)
    0 (List.length (Config.classes config))
    (specPredictedClass config raw r c a).
Proof.
  intros Hw Hne. unfold specPredictedClass. rewrite Hw.
  destruct (Config.classes config) as [| cl cls]; [congruence |].
  set (n := List.length (cl :: cls)).
  change n with (S (List.length cls)) at 2.
  cbn [seq map].
  change (S (List.length cls)) with (1 + List.length cls)%nat.
  apply fold_pickMax_leads.
  unfold leads; cbn [pcLabel pcScore].
  split; [lia | split; [reflexivity | split]].
  - intros i Hi. replace i with 0%nat by lia. lra.
  - intros i Hi. lia.
Qed.

Lemma leading_probability (config : TinyYolov2Config) (raw : Tensor)
    (r c a : nat) :
  withClassScores config = true ->
  Config.classes config <> [] ->
  1 / INR (List.length (Config.classes config))
  <= pcScore (specPredictedClass config raw r c a).
Proof.
  intros Hw Hne.
  destruct (@specPredictedClass_leads config raw r c a Hw Hne) as [_ [_ [Hmax _]]].
  set (n := List.length (Config.classes config)) in *.
  set (m := pcScore (specPredictedClass config raw r c a)) in *.
  assert (Hn : (0 < n)%nat).
  { unfold n. destruct (Config.classes config); [congruence | simpl; lia]. }
  pose proof (@classProbability_total raw n r c a Hn) as Hone.
  pose proof (@Rsum_bounded (classProbability raw n r c a) m (seq 0 n)) as Hb.
  rewrite length_seq, Hone in Hb.
  assert (HN : 0 < INR n) by (apply lt_0_INR; exact Hn).
  assert (Hle : 1 <= INR n * m).
  { apply Hb. intros i Hi. apply in_seq in Hi. apply Hmax. lia. }
  apply Rmult_le_reg_l with (INR n); [exact HN |].
  unfold Rdiv. rewrite Rmult_1_l, Rinv_r by lra. exact Hle.
Qed.

(** What [extractBoxes] has stored in an entry of its result. *)
Lemma extracted_entry (config : TinyYolov2Config) (out : Tensor)
    (d : Dimensions) (thr : option R) (results : list ExtractedBox)
    (res : ExtractedBox) :
  extractBoxes config out d thr = Ok results ->
  In res results ->
  exists raw,
    rawOutput config out = Ok raw /\
    res = specDetection config raw d (row res) (col res) (anchor res) /\
    (row res < gridSize out /\ col res < gridSize out /\
     anchor res < List.length (Config.anchors config))%nat /\
    passesThreshold thr (sigmoid (tget raw (row res) (col res) (anchor res) 4))
      = true /\
    (withClassScores config = true -> Config.classes config <> []).
Proof.
  intros H Hin.
  destruct (@extractBoxes_refines _ _ _ _ _ H) as [raw [Hraw Hres]].
  pose proof (rawOutput_shape _ _ Hraw) as Hshape.
  assert (Hn : nth 0 (shape raw) 0%nat = gridSize out)
    by (rewrite Hshape; reflexivity).
  exists raw. split; [exact Hraw |].
  rewrite Hres in Hin. apply specExtract_In in Hin.
  destruct Hin as [r [c [a [Hrange [Hp Hdet]]]]]. rewrite Hn in Hrange.
  assert (Hr : row res = r) by (rewrite Hdet; reflexivity).
  assert (Hc : col res = c) by (rewrite Hdet; reflexivity).
  assert (Ha : anchor res = a) by (rewrite Hdet; reflexivity).
  rewrite Hr, Hc, Ha. split; [exact Hdet |]. split; [exact Hrange |].
  split; [exact Hp |].
  intros Hw Hnil.
  destruct (@extractBoxes_fails_without_classes config out raw d thr Hw Hnil
              Hraw) as [msg Herr].
  - exists r, c, a. destruct Hrange as [? [? ?]]. auto.
  - rewrite H in Herr. discriminate Herr.
Qed.

(** X6. The score of an entry of [extractBoxes].  Without class scores it
    is the squashed objectness of the slot and the label is 0.  With class
    scores the label is a class index, the score is the squashed objectness
    times the normalised probability of that class, and it lies between
    the objectness divided by the number of classes and the objectness. *)
Theorem score_of_an_entry (config : TinyYolov2Config) (out : Tensor)
    (d : Dimensions) (thr : option R) (results : list ExtractedBox)
    (res : ExtractedBox) :
  extractBoxes config out d thr = Ok results ->
  In res results ->
  exists raw,
    rawOutput config out = Ok raw /\
    let o := sigmoid (tget raw (row res) (col res) (anchor res) 4) in
    let numClasses := List.length (Config.classes config) in
    (withClassScores config = false ->
     score res = o /\ classLabel res = 0%nat) /\
    (withClassScores config = true ->
     (classLabel res < numClasses)%nat /\
     score res =
       o * classProbability raw numClasses (row res) (col res) (anchor res)
             (classLabel res) /\
     o / INR numClasses <= score res <= o).
Proof.
  intros H Hin.
  destruct (@extracted_entry _ _ _ _ _ _ H Hin)
    as [raw [Hraw [Hdet [_ [_ Hvalid]]]]].
  exists raw. split; [exact Hraw |]. cbv zeta.
  set (r := row res) in *. set (c := col res) in *. set (a := anchor res) in *.
  pose proof (sigmoid_pos (tget raw r c a 4)) as Ho.
  assert (Hscore : score res =
            sigmoid (tget raw r c a 4)
            * pcScore (specPredictedClass config raw r c a))
    by (rewrite Hdet; reflexivity).
  assert (Hlabel : classLabel res = pcLabel (specPredictedClass config raw r c a))
    by (rewrite Hdet; reflexivity).
  split.
  - intros Hw. rewrite Hscore, Hlabel. unfold specPredictedClass. rewrite Hw.
    cbn [pcScore pcLabel]. split; [lra | reflexivity].
  - intros Hw. specialize (Hvalid Hw).
    destruct (@specPredictedClass_leads config raw r c a Hw Hvalid)
      as [Hl [Hs _]].
    pose proof (@leading_probability config raw r c a Hw Hvalid) as Hlead.
    pose proof (specPredictedClass_range config raw r c a) as [_ Hone].
    rewrite Hscore, Hlabel.
    split; [lia |]. split; [rewrite Hs; reflexivity |].
    set (p := pcScore (specPredictedClass config raw r c a)) in *.
    split.
    + unfold Rdiv in *. rewrite Rmult_1_l in Hlead.
      apply Rmult_le_compat_l; [lra | exact Hlead].
    + rewrite <- (Rmult_1_r (sigmoid (tget raw r c a 4))) at 2.
      apply Rmult_le_compat_l; [lra | exact Hone].
Qed.

(** X7. With a positive threshold, every entry of the result has a squashed
    objectness above the threshold.  Its score is above the threshold too
    when class scores are disabled, and above the threshold divided by the
    number of classes when they are enabled; it need not reach the
    threshold itself then. *)
Theorem scores_above_the_threshold (config : TinyYolov2Config) (out : Tensor)
    (d : Dimensions) (t : R) (results : list ExtractedBox)
    (res : ExtractedBox) :
  0 < t ->
  extractBoxes config out d (Some t) = Ok results ->
  In res results ->
  exists raw,
    rawOutput config out = Ok raw /\
    sigmoid (tget raw (row res) (col res) (anchor res) 4) > t /\
    (withClassScores config = false -> score res > t) /\
    (withClassScores config = true ->
     score res > t / INR (List.length (Config.classes config))).
Proof.
  intros Ht H Hin.
  destruct (@extracted_entry _ _ _ _ _ _ H Hin)
    as [raw [Hraw [Hdet [_ [Hp Hvalid]]]]].
  exists raw. split; [exact Hraw |].
  apply passesThreshold_nonzero in Hp; [| lra].
  set (r := row res) in *. set (c := col res) in *. set (a := anchor res) in *.
  assert (Hscore : score res =
            sigmoid (tget raw r c a 4)
            * pcScore (specPredictedClass config raw r c a))
    by (rewrite Hdet; reflexivity).
  split; [exact Hp |]. split.
  - intros Hw. rewrite Hscore. unfold specPredictedClass. rewrite Hw.
    cbn [pcScore]. lra.
  - intros Hw. specialize (Hvalid Hw).
    pose proof (@leading_probability config raw r c a Hw Hvalid) as Hlead.
    rewrite Hscore.
    set (p := pcScore (specPredictedClass config raw r c a)) in *.
    set (n := INR (List.length (Config.classes config))) in *.
    assert (Hn : 0 < n).
    { unfold n. apply lt_0_INR.
      destruct (Config.classes config); [congruence | simpl; lia]. }
    assert (Hinv : 0 < / n) by (apply Rinv_0_lt_compat; exact Hn).
    unfold Rdiv in *. rewrite Rmult_1_l in Hlead.
    apply Rlt_le_trans with (sigmoid (tget raw r c a 4) * / n).
    + apply Rmult_lt_compat_r; [exact Hinv | exact Hp].
    + apply Rmult_le_compat_l; [lra | exact Hlead].
Qed.

(** ** The geometry of an entry *)

Lemma correction_factors (d : Dimensions) :
  0 < width d -> 0 < height d ->
  1 <= correctionFactorX d /\ 1 <= correctionFactorY d /\
  (height d <= width d -> correctionFactorX d = 1) /\
  (width d <= height d -> correctionFactorY d = 1) /\
  correctionFactorX d * width d = Rmax (width d) (height d) /\
  correctionFactorY d * height d = Rmax (width d) (height d).
Proof.
  intros Hw Hh. unfold correctionFactorX, correctionFactorY, Rmax.
  destruct (Rle_dec (width d) (height d)) as [Hle | Hgt].
  - repeat split.
    + apply Rmult_le_reg_r with (width d); [exact Hw |].
      unfold Rdiv. rewrite Rmult_assoc, Rinv_l by lra. lra.
    + unfold Rdiv. rewrite Rinv_r by lra. lra.
    + intros Hge. assert (height d = width d) by lra.
      unfold Rdiv. rewrite H, Rinv_r by lra. reflexivity.
    + intros _. unfold Rdiv. rewrite Rinv_r by lra. reflexivity.
    + unfold Rdiv. rewrite Rmult_assoc, Rinv_l by lra. lra.
    + unfold Rdiv. rewrite Rmult_assoc, Rinv_l by lra. lra.
  - repeat split.
    + unfold Rdiv. rewrite Rinv_r by lra. lra.
    + apply Rmult_le_reg_r with (height d); [exact Hh |].
      unfold Rdiv. rewrite Rmult_assoc, Rinv_l by lra. lra.
    + intros _. unfold Rdiv. rewrite Rinv_r by lra. reflexivity.
    + intros Hle. lra.
    + unfold Rdiv. rewrite Rmult_assoc, Rinv_l by lra. lra.
    + unfold Rdiv. rewrite Rmult_assoc, Rinv_l by lra. lra.
Qed.


(** X9. The correction factors that [extractBoxes] derives from the
    reshaped dimensions (both positive): each is at least 1, the factor of
    the longer side is exactly 1, and each factor times its side is the
    input size, the larger of the two sides. *)
Theorem letterbox_correction_factors (d : Dimensions) :
  0 < width d -> 0 < height d ->
  1 <= correctionFactorX d /\ 1 <= correctionFactorY d /\
  (height d <= width d -> correctionFactorX d = 1) /\
  (width d <= height d -> correctionFactorY d = 1) /\
  correctionFactorX d * width d = Rmax (width d) (height d) /\
  correctionFactorY d * height d = Rmax (width d) (height d).
Proof. intros Hw Hh. apply correction_factors; assumption. Qed.

(** ** When [extractBoxes] succeeds *)

Lemma rawOutput_sizes (config : TinyYolov2Config) (out : Tensor) :
  (exists raw, rawOutput config out = Ok raw) <->
  sizeOf (shape out) =
    (gridSize out * gridSize out * List.length (Config.anchors config)
     * boxEncodingSize config)%nat.
Proof.
  unfold rawOutput, tf_reshape.
  replace (sizeOf [gridSize out; gridSize out;
                   List.length (Config.anchors config);
                   boxEncodingSize config])
    with (gridSize out * gridSize out * List.length (Config.anchors config)
          * boxEncodingSize config)%nat
    by (cbn [sizeOf fold_right]; ring).
  destruct (Nat.eqb_spec
              (gridSize out * gridSize out
               * List.length (Config.anchors config)
               * boxEncodingSize config) (sizeOf (shape out)))
    as [Heq | Hne].
  - split; [intros _; congruence | intros _; eexists; reflexivity].
  - split; [intros [raw Hraw]; discriminate Hraw | intros Heq; congruence].
Qed.

(** X10. [extractBoxes] reads the output through a reshape to
    [[numCells, numCells, numBoxes, boxEncodingSize]], with [numCells] the
    second dimension of the output.  When the number of values of the
    output differs from the product of these four, it ends in an error for
    every threshold; when it agrees, and the class list is not empty
    whenever class scores are enabled, it returns a result. *)
Theorem extractBoxes_needs_matching_sizes (config : TinyYolov2Config)
    (out : Tensor) (d : Dimensions) (thr : option R) :
  (sizeOf (shape out) <>
     (gridSize out * gridSize out * List.length (Config.anchors config)
      * boxEncodingSize config)%nat ->
   extractBoxes config out d thr = Err "Size(s) don't match") /\
  (sizeOf (shape out) =
     (gridSize out * gridSize out * List.length (Config.anchors config)
      * boxEncodingSize config)%nat ->
   (withClassScores config = true -> Config.classes config <> []) ->
   exists results, extractBoxes config out d thr = Ok results).
Proof.
  split.
  - intros Hne. unfold extractBoxes. fold (gridSize out).
    destruct (tf_reshape out _) as [raw |] eqn:Hraw.
    + exfalso. apply Hne. apply rawOutput_sizes. exists raw. exact Hraw.
    + unfold tf_reshape in Hraw.
      destruct (_ =? _)%nat; [discriminate Hraw |].
      inversion Hraw. reflexivity.
  - intros Heq Hvalid. apply rawOutput_sizes in Heq.
    destruct Heq as [raw Hraw]. eexists.
    apply (@extractBoxes_total config out raw d thr Hraw Hvalid).
Qed.

(** X11. The layout of the output of the network.  For an output of shape
    [[1, numCells, numCells, numBoxes * boxEncodingSize]] the reshape of
    [extractBoxes] succeeds, and value [k] of anchor [a] in the cell at
    row [r], column [c] is channel [a * boxEncodingSize + k] of that
    cell. *)
Theorem slots_are_channel_groups (config : TinyYolov2Config) (out : Tensor)
    (n : nat) :
  shape out = [1; n; n;
               List.length (Config.anchors config) * boxEncodingSize config]%nat ->
  exists raw,
    rawOutput config out = Ok raw /\
    forall r c a k,
      (r < n)%nat -> (c < n)%nat ->
      (a < List.length (Config.anchors config))%nat ->
      (k < boxEncodingSize config)%nat ->
      tget raw r c a k = tget out 0 r c (a * boxEncodingSize config + k).
Proof.
  intros Hshape. destruct (rawOutput_ok config out Hshape) as [raw Hraw].
  exists raw. split; [exact Hraw |].
  intros r c a k Hr Hc Ha Hk.
  apply (@rawOutput_layout config out raw n r c a k Hshape Hraw Hr Hc Ha Hk).
Qed.

(** ** Errors of [detect] *)

(** X12. The errors of [detect] surface in the order of its statements.
    An input size that is absent or names no preset is an error whatever
    the instance and the input; then a failure of [toNetInput] is returned
    as it is, loaded parameters or not; then missing parameters are the
    load-model error; then a failure of the layers is returned as it is. *)
Theorem detect_errors_in_order (E : Collaborators) (self : TinyYolov2 E)
    (input : TNetInput E) (forwardParams : TinyYolov2ForwardParams) :
  (resolveInputSize E (inputSize (getDefaultParams E forwardParams)) = None ->
   (exists msg, detect self input forwardParams = Err msg) /\
   forall (self' : TinyYolov2 E) (input' : TNetInput E),
     detect self' input' forwardParams = detect self input forwardParams) /\
  (forall size,
     resolveInputSize E (inputSize (getDefaultParams E forwardParams))
       = Some size ->
     (forall msg,
        toNetInput E input true = Err msg ->
        detect self input forwardParams = Err msg) /\
     (forall netInput,
        toNetInput E input true = Ok netInput ->
        (params self = None ->
         detect self input forwardParams
         = Err "TinyYolov2 - load model before inference") /\
        (forall p msg,
           params self = Some p ->
           runLayers E (config self) p netInput size = Err msg ->
           detect self input forwardParams = Err msg))).
Proof.
  split.
  - intros Hnone. unfold detect. rewrite Hnone.
    split; [eexists; reflexivity | intros; reflexivity].
  - intros size Hsize. unfold detect. rewrite Hsize. split.
    + intros msg Hin. rewrite Hin. reflexivity.
    + intros netInput Hin. rewrite Hin. cbn [bind]. unfold forwardInput.
      split.
      * intros Hp. rewrite Hp. reflexivity.
      * intros p msg Hp Hrun. rewrite Hp, Hrun. reflexivity.
Qed.

(** ** What [detect] returns *)



Lemma nth_error_of_map (A B : Type) (f : A -> B) (l : list A) (i : nat)
    (b : B) :
  nth_error (map f l) i = Some b ->
  exists a, nth_error l i = Some a /\ b = f a.
Proof.
  revert i; induction l as [| a tl IH]; intros i H.
  - destruct i; discriminate H.
  - destruct i as [| i]; cbn in H.
    + inversion H. exists a. split; reflexivity.
    + apply IH in H. exact H.
Qed.





(** ** More on the masks and the loss *)

(** X15. For the masks that the spec describes, the coordinate mask of
    [computeLoss] is 1 exactly at the four geometry values of the assigned
    slots; at no position is it non-zero together with the object mask or
    the no-object mask.  With no ground-truth box at all, the coordinate
    mask and the object mask are zero everywhere and the no-object mask is
    the score mask. *)
Theorem coordinate_mask_marks_assigned_geometry
    (groundTruthBoxes : list GroundTruthWithGridPosition.t)
    (numCells boxEncodingSize numBoxes : nat) :
  let groundTruthMask :=
    MaskModel.createGroundTruthMask groundTruthBoxes numCells boxEncodingSize
      numBoxes in
  let coordMask :=
    fst (MaskModel.createCoordAndScoreMasks numCells boxEncodingSize numBoxes) in
  let scoreMask :=
    snd (MaskModel.createCoordAndScoreMasks numCells boxEncodingSize numBoxes) in
  exists coordLossM objectM noObjectM,
    coordLossMask coordMask groundTruthMask = Ok coordLossM /\
    objectLossMask scoreMask groundTruthMask = Ok objectM /\
    noObjectLossMask scoreMask groundTruthMask = Ok noObjectM /\
    forall r c a k,
      (r < numCells)%nat -> (c < numCells)%nat -> (a < numBoxes)%nat ->
      (k < boxEncodingSize)%nat ->
      tget coordLossM r c a k =
        (if MaskModel.assigned groundTruthBoxes r c a && (k <? 4)%nat
         then 1 else 0) /\
      tget coordLossM r c a k * tget objectM r c a k = 0 /\
      tget coordLossM r c a k * tget noObjectM r c a k = 0 /\
      (groundTruthBoxes = [] ->
       tget coordLossM r c a k = 0 /\ tget objectM r c a k = 0 /\
       tget noObjectM r c a k = tget scoreMask r c a k).
Proof.
  intros groundTruthMask coordMask scoreMask.
  unfold coordLossMask, noObjectLossMask, objectLossMask, tf_sub, tf_mul,
    tf_binary.
  subst groundTruthMask coordMask scoreMask.
  cbn [MaskModel.createGroundTruthMask MaskModel.createCoordAndScoreMasks
       fst snd shape tf_scalar rev app broadcastRev bind].
  rewrite !Nat.eqb_refl. cbn [bind rev app shape].
  eexists _, _, _. split; [reflexivity |]. split; [reflexivity |].
  split; [reflexivity |].
  intros r c a k Hr Hc Ha Hk. unfold tget. cbn [entry].
  rewrite !pick_in_range4 by assumption.
  unfold MaskModel.createGroundTruthMask, tf_scalar. cbn [entry].
  assert (Hempty : groundTruthBoxes = [] ->
                   MaskModel.assigned groundTruthBoxes r c a = false)
    by (intros ->; reflexivity).
  destruct (MaskModel.assigned groundTruthBoxes r c a);
    destruct (Nat.ltb_spec k 4) as [Hk4 | Hk4];
    destruct (Nat.eqb_spec k 4) as [Hk4' | Hk4']; try lia; cbn [andb];
    (split; [lra | split; [lra | split; [lra |]]]);
    intros Hnil; try (specialize (Hempty Hnil); discriminate Hempty);
    repeat split; lra.
Qed.

(** X16. With non-negative scale factors the total loss that
    [computeLoss] returns is at least each of the four terms, and so is not
    negative. *)
Theorem total_loss_dominates_its_terms (E : Collaborators)
    (self : TinyYolov2 E) (outTensor : Tensor)
    (groundTruth : list (GroundTruth E)) (d : Dimensions)
    (trainConfig : TrainConfig) (res : LossTerms) :
  validateTrainConfig E (config self) = Ok trainConfig ->
  0 <= noObjectScale trainConfig ->
  0 <= objectScale trainConfig ->
  0 <= coordScale trainConfig ->
  0 <= classScale trainConfig ->
  computeLoss self outTensor groundTruth d = Ok res ->
  0 <= scalarValue (totalLoss res) /\
  scalarValue (noObjectLoss res) <= scalarValue (totalLoss res) /\
  scalarValue (objectLoss res) <= scalarValue (totalLoss res) /\
  scalarValue (coordLoss res) <= scalarValue (totalLoss res) /\
  scalarValue (classLoss res) <= scalarValue (totalLoss res).
Proof.
  intros Htc Hno Hobj Hcoord Hcls H.
  apply computeLoss_inv in H.
  destruct H as [tc [Htc' [_ [[m1 [l1 H1]] [[m2 [l2 H2]] [[m3 [l3 H3]]
                 [H4 [s1 [s2 [Ha [Hb Hc]]]]]]]]]]].
  rewrite Htc in Htc'. inversion Htc'; subst tc; clear Htc'.
  pose proof (computeLossTerm_nonneg _ _ Hno H1) as P1.
  pose proof (computeLossTerm_nonneg _ _ Hobj H2) as P2.
  pose proof (computeLossTerm_nonneg _ _ Hcoord H3) as P3.
  apply computeLossTerm_scalar in H1, H2, H3.
  assert (H4s : shape (classLoss res) = [] /\ 0 <= scalarValue (classLoss res)).
  { destruct (withClassScores (config self)).
    - destruct H4 as [m4 [l4 H4]].
      split; [exact (@computeLossTerm_scalar _ _ _ _ H4)
             | exact (computeLossTerm_nonneg _ _ Hcls H4)].
    - rewrite H4. split; [reflexivity | unfold scalarValue; simpl; lra]. }
  destruct H4s as [H4s P4].
  destruct (tf_add_scalars _ _ H1 H2 Ha) as [Hs1 Hv1].
  destruct (tf_add_scalars _ _ Hs1 H3 Hb) as [Hs2 Hv2].
  destruct (tf_add_scalars _ _ Hs2 H4s Hc) as [_ Hv3].
  rewrite Hv3, Hv2, Hv1. repeat split; lra.
Qed.

(** ** When a loss term vanishes *)




(** ** [computeLoss] and the shape of the output *)

Lemma computeLoss_extracts (E : Collaborators) (self : TinyYolov2 E)
    (outTensor : Tensor) (groundTruth : list (GroundTruth E))
    (d : Dimensions) (res : LossTerms) :
  computeLoss self outTensor groundTruth d = Ok res ->
  exists predBoxes,
    extractBoxes (config self) outTensor d None = Ok predBoxes.
Proof.
  unfold computeLoss. intros H.
  invert_bind H.
  destruct (Req_EM_T (Rmax (width d) (height d)) 0); [discriminate H |].
  invert_bind H. invert_bind H. invert_bind H. invert_bind H. invert_bind H.
  invert_bind H.
  match goal with
  | Hobj : computeObjectLoss _ _ _ _ = Ok _ |- _ =>
      unfold computeObjectLoss in Hobj; invert_bind Hobj
  end.
  match goal with
  | Hex : extractBoxes _ _ _ None = Ok ?p |- _ => exists p; exact Hex
  end.
Qed.

(** X18. [computeLoss] decodes every slot of the output for the object
    loss, so it needs an output whose number of values is
    [numCells * numCells * numBoxes * boxEncodingSize]; on any other
    output it ends in an error, whatever the helpers return.  When it
    succeeds, the boxes handed to [computeIous] are one per slot. *)
Theorem computeLoss_needs_matching_sizes (E : Collaborators)
    (self : TinyYolov2 E) (outTensor : Tensor)
    (groundTruth : list (GroundTruth E)) (d : Dimensions) :
  let slots :=
    (gridSize outTensor * gridSize outTensor
     * List.length (Config.anchors (config self)))%nat in
  (sizeOf (shape outTensor) <> (slots * boxEncodingSize (config self))%nat ->
   exists msg, computeLoss self outTensor groundTruth d = Err msg) /\
  (forall res,
     computeLoss self outTensor groundTruth d = Ok res ->
     sizeOf (shape outTensor) = (slots * boxEncodingSize (config self))%nat /\
     exists predBoxes,
       extractBoxes (config self) outTensor d None = Ok predBoxes /\
       List.length predBoxes = slots).
Proof.
  cbv zeta.
  assert (Hok : forall res,
     computeLoss self outTensor groundTruth d = Ok res ->
     sizeOf (shape outTensor) =
       (gridSize outTensor * gridSize outTensor
        * List.length (Config.anchors (config self))
        * boxEncodingSize (config self))%nat /\
     exists predBoxes,
       extractBoxes (config self) outTensor d None = Ok predBoxes /\
       List.length predBoxes =
         (gridSize outTensor * gridSize outTensor
          * List.length (Config.anchors (config self)))%nat).
  { intros res H. destruct (@computeLoss_extracts _ _ _ _ _ _ H) as [pb Hpb].
    split.
    - apply rawOutput_sizes.
      destruct (@extractBoxes_refines _ _ _ _ _ Hpb) as [raw [Hraw _]].
      exists raw. exact Hraw.
    - exists pb. split; [exact Hpb |].
      destruct (@extractBoxes_positions _ _ _ _ _ Hpb) as [raw [_ [_ Hpos]]].
      rewrite <- (length_map slotOf), Hpos.
      rewrite filter_all by (intros slot _; reflexivity).
      apply allSlots_length. }
  split; [| exact Hok].
  intros Hne.
  destruct (computeLoss self outTensor groundTruth d) as [res | msg] eqn:H.
  - exfalso. apply Hne. exact (proj1 (Hok res eq_refl)).
  - exists msg. reflexivity.
Qed.

(** ** The first detection *)

Lemma combine_seq_nth_error (A : Type) (l : list A) :
  forall start n i x,
    In (i, x) (combine (seq start n) l) ->
    (start <= i)%nat /\ nth_error l (i - start) = Some x.
Proof.
  induction l as [| a tl IH]; intros start n i x Hin.
  - destruct (seq start n); contradiction.
  - destruct n as [| n]; [contradiction |].
    cbn [seq combine] in Hin. destruct Hin as [Heq | Hin].
    + inversion Heq; subst. rewrite Nat.sub_diag. split; [lia | reflexivity].
    + apply IH in Hin. destruct Hin as [Hle Hnth].
      split; [lia |].
      replace (i - start)%nat with (S (i - S start)) by lia. exact Hnth.
Qed.

Lemma nth_error_in_combine_seq (A : Type) (l : list A) :
  forall start n j x,
    nth_error l j = Some x -> (j < n)%nat ->
    In ((start + j)%nat, x) (combine (seq start n) l).
Proof.
  induction l as [| a tl IH]; intros start n j x Hnth Hj.
  - destruct j; discriminate Hnth.
  - destruct n as [| n]; [lia |]. cbn [seq combine].
    destruct j as [| j]; cbn in Hnth.
    + inversion Hnth. left. rewrite Nat.add_0_r. reflexivity.
    + right. replace (start + S j)%nat with (S start + j)%nat by lia.
      apply IH; [exact Hnth | lia].
Qed.

Lemma nth_error_combine_inv (A B : Type) (l1 : list A) (l2 : list B) :
  forall i a b,
    nth_error (combine l1 l2) i = Some (a, b) ->
    nth_error l1 i = Some a /\ nth_error l2 i = Some b.
Proof.
  revert l2; induction l1 as [| x tl IH]; intros l2 i a b H.
  - destruct i; discriminate H.
  - destruct l2 as [| y tl2]; [destruct i; discriminate H |].
    destruct i as [| i]; cbn in *.
    + inversion H. split; reflexivity.
    + apply IH. exact H.
Qed.

Lemma nth_error_combine_maps (A B C : Type) (f : A -> B) (g : A -> C)
    (l : list A) (j : nat) (a : A) :
  nth_error l j = Some a ->
  nth_error (combine (map f l) (map g l)) j = Some (f a, g a).
Proof.
  intros H. rewrite combine_maps.
  apply (map_nth_error (fun x => (f x, g x)) j l H).
Qed.

Lemma greedy_head (A : Type) (scoreOf : A -> R) (suppresses : A -> A -> bool)
    (l : list A) :
  l <> [] ->
  exists m rest,
    greedy scoreOf suppresses (List.length l) l = m :: rest /\ In m l /\
    forall x, In x l -> scoreOf x <= scoreOf m.
Proof.
  intros Hne.
  destruct (popBest scoreOf l) as [[m rest] |] eqn:Hbest.
  2:{ apply popBest_nil in Hbest. contradiction. }
  destruct (@popBest_some _ _ _ _ _ Hbest) as [Hin [_ [Hlen Hmax]]].
  rewrite Hlen. cbn [greedy]. rewrite Hbest.
  eexists m, _. split; [reflexivity |]. split; assumption.
Qed.

(** The suppression starts with the index of a best-scoring candidate. *)
Lemma nonMaxSuppression_head (boxes : list BoundingBox) (scores : list R)
    (iouThreshold : R) (classAgnostic : bool) :
  boxes <> [] -> List.length boxes = List.length scores ->
  exists i others b s,
    nonMaxSuppression boxes scores iouThreshold classAgnostic = i :: others /\
    nth_error boxes i = Some b /\ nth_error scores i = Some s /\
    forall j s', nth_error scores j = Some s' -> s' <= s.
Proof.
  intros Hne Hlen. unfold nonMaxSuppression. cbv zeta.
  remember (combine (seq 0 (List.length boxes)) (combine boxes scores))
    as cands eqn:Hcands.
  assert (Hpos : (0 < List.length boxes)%nat)
    by (destruct boxes; [congruence | simpl; lia]).
  assert (Hcne : cands <> []).
  { intros Hnil. apply (f_equal (@List.length _)) in Hnil.
    rewrite Hcands, !length_combine, length_seq in Hnil. simpl in Hnil. lia. }
  destruct (@greedy_head _ candScore
              (fun best c =>
                 overlaps iouThreshold (fst (snd best)) (fst (snd c)))
              cands Hcne) as [best [rest [Hgreedy [Hbin Hmax]]]].
  unfold Candidate in *. rewrite Hgreedy.
  destruct best as [i [b s]]. cbn [map fst].
  rewrite Hcands in Hbin.
  destruct (combine_seq_nth_error _ _ _ _ _ Hbin) as [_ Hnth].
  rewrite Nat.sub_0_r in Hnth.
  destruct (nth_error_combine_inv _ _ _ Hnth) as [Hbox Hscore].
  eexists i, _, b, s. split; [reflexivity |].
  split; [exact Hbox |]. split; [exact Hscore |].
  intros j s' Hj.
  assert (Hjlt : (j < List.length boxes)%nat)
    by (rewrite Hlen; apply nth_error_Some; congruence).
  destruct (nth_error boxes j) as [b' |] eqn:Hb'.
  2:{ apply nth_error_None in Hb'. lia. }
  assert (Hpair : nth_error (combine boxes scores) j = Some (b', s')).
  { clear - Hb' Hj. revert scores j Hb' Hj.
    induction boxes as [| x tl IH]; intros scores j Hb' Hj.
    - destruct j; discriminate Hb'.
    - destruct scores as [| y tl2]; [destruct j; discriminate Hj |].
      destruct j as [| j]; cbn in *.
      + congruence.
      + apply IH; assumption. }
  pose proof (@nth_error_in_combine_seq _ (combine boxes scores) 0
                (List.length boxes) j (b', s') Hpair Hjlt) as Hin.
  rewrite <- Hcands in Hin. apply Hmax in Hin. exact Hin.
Qed.

(** X19. When [extractBoxes] returns at least one candidate, [detect]
    returns at least one detection, and the first detection carries the
    highest score among the candidates: the suppression never removes the
    best candidate. *)
Theorem best_candidate_is_detected_first (E : Collaborators)
    (self : TinyYolov2 E) (input : TNetInput E)
    (forwardParams : TinyYolov2ForwardParams)
    (size : R) (netInput : NetInput E) (out out0 : Tensor)
    (results : list ExtractedBox) :
  resolveInputSize E (inputSize (getDefaultParams E forwardParams))
    = Some size ->
  toNetInput E input true = Ok netInput ->
  forwardInput self netInput size = Ok out ->
  firstOfBatch out = Ok out0 ->
  extractBoxes (config self) out0
    (getReshapedInputDimensions E netInput size 0)
    (scoreThreshold (getDefaultParams E forwardParams)) = Ok results ->
  results <> [] ->
  exists first others,
    detect self input forwardParams = Ok (first :: others) /\
    (exists res, In res results /\ odScore first = score res) /\
    forall res, In res results -> score res <= odScore first.
Proof.
  intros Hsize Hin Hfw Hfirst Hex Hne.
  destruct (@detect_count E self input forwardParams size netInput out out0
              results Hsize Hin Hfw Hfirst Hex) as [ds [Hds _]].
  pose proof Hds as Hrun.
  rewrite (@detect_after_extract E self input forwardParams size netInput
             out out0 results Hsize Hin Hfw Hfirst Hex) in Hrun.
  destruct (@nonMaxSuppression_head
              (map (fun b => rescale b size) (map box results))
              (map score results) (Config.iouThreshold (config self)) true)
    as [i [rest [b [s [Hnms [Hbox [Hscore Hmax]]]]]]].
  { destruct results; [congruence | discriminate]. }
  { rewrite !length_map. reflexivity. }
  rewrite Hnms in Hrun. cbn [concatMapM] in Hrun.
  assert (Hbox' : exists b0, nth_error (map box results) i = Some b0).
  { apply nth_error_of_map in Hbox.
    destruct Hbox as [b0 [Hb0 _]]. exists b0. exact Hb0. }
  destruct Hbox' as [b0 Hb0].
  rewrite Hb0, Hscore in Hrun. cbn [bind] in Hrun.
  match type of Hrun with
  | bind ?rest_run _ = _ => destruct rest_run as [others |] eqn:Hothers
  end; cbn [bind app] in Hrun; [| discriminate Hrun].
  inversion Hrun; subst ds; clear Hrun.
  eexists _, others. split; [exact Hds |]. cbn [odScore]. split.
  - apply nth_error_of_map in Hscore.
    destruct Hscore as [res [Hres ->]]. exists res.
    split; [apply nth_error_In with i; exact Hres | reflexivity].
  - intros res Hres. apply In_nth_error in Hres. destruct Hres as [j Hj].
    apply (Hmax j). apply map_nth_error. exact Hj.
Qed.

(** ** Instances *)

(** X2, instance: the flag forces class scores and no class is named.  On
    a 1 x 1 grid whose squashed objectness is below 1/2, threshold 0.9
    gives the empty list and no threshold gives an error. *)
Lemma extractBoxes_without_classes_witness :
  extractBoxes (Config.mk false (2 / 5) [Point.mk 1 1] [] None (Some true))
    Example.quietOutput Example.square (Some (9 / 10)) = Ok [] /\
  exists msg,
    extractBoxes (Config.mk false (2 / 5) [Point.mk 1 1] [] None (Some true))
      Example.quietOutput Example.square None = Err msg.
Proof.
  set (config := Config.mk false (2 / 5) [Point.mk 1 1] [] None (Some true)).
  split.
  - apply (proj2 (@extractBoxes_without_classes config Example.quietOutput
                    (mkTensor [1; 1; 1; 5]%nat (fun _ => -1))
                    Example.square (Some (9 / 10))
                    eq_refl eq_refl eq_refl)).
    intros r c a _ _ _. unfold tget; cbn [entry].
    pose proof (@sigmoid_le_half (-1) ltac:(lra)) as Hs.
    destruct (passesThreshold (Some (9 / 10)) (sigmoid (-1))) eqn:Hp;
      [| reflexivity].
    apply passesThreshold_nonzero in Hp; lra.
  - apply (proj1 (@extractBoxes_without_classes config Example.quietOutput
                    (mkTensor [1; 1; 1; 5]%nat (fun _ => -1))
                    Example.square None eq_refl eq_refl eq_refl)).
    exists 0%nat, 0%nat, 0%nat.
    repeat split; cbn; lia.
Defined.

(** X3, instance: one anchor on a 1 x 1 grid, no threshold. *)
Lemma extractBoxes_keeps_slot_order_witness :
  exists results,
    extractBoxes Example.oneAnchor Example.quietOutput (mkDimensions 32 32)
      None = Ok results /\
    map slotOf results = [(0, 0, 0)%nat] /\
    NoDup (map slotOf results).
Proof.
  eexists. split; [apply quiet_extract |].
  destruct (@extractBoxes_keeps_slot_order Example.oneAnchor
              Example.quietOutput (mkDimensions 32 32) None _
              (quiet_extract None)) as [raw [_ [_ Hnd]]].
  split; [reflexivity | exact Hnd].
Defined.

(** X4, instance: one anchor on a 1 x 1 grid, threshold 0. *)
Lemma extractBoxes_without_threshold_witness :
  exists results,
    extractBoxes Example.oneAnchor Example.quietOutput (mkDimensions 32 32)
      (Some 0) = Ok results /\
    map slotOf results = [(0, 0, 0)%nat] /\
    List.length results = 1%nat.
Proof.
  eexists. split; [apply quiet_extract |].
  apply (@extractBoxes_without_threshold Example.oneAnchor
           Example.quietOutput (mkDimensions 32 32) (Some 0) _).
  - right. exists 0. split; [reflexivity | lra].
  - apply quiet_extract.
Defined.

(** X5, instance: one anchor on a 1 x 1 grid, threshold 0.9 against no
    threshold. *)
Lemma threshold_only_removes_entries_witness :
  exists raw results,
    rawOutput Example.oneAnchor Example.quietOutput = Ok raw /\
    extractBoxes Example.oneAnchor Example.quietOutput (mkDimensions 32 32)
      (Some (9 / 10)) = Ok results /\
    results =
      filter (fun res => slotPasses (Some (9 / 10)) raw (slotOf res))
        (specExtract Example.oneAnchor Example.quietOutput
           (mkDimensions 32 32) None).
Proof.
  apply (@threshold_only_removes_entries Example.oneAnchor
           Example.quietOutput (mkDimensions 32 32) (Some (9 / 10)) _
           (quiet_extract None)).
Defined.

(** X6, instance: three anchors and two classes on a 1 x 1 grid, no
    threshold; the entry of the first anchor. *)
Lemma score_of_an_entry_witness :
  exists results res,
    extractBoxes Example.threeAnchors Example.crowdedFirst Example.square
      None = Ok results /\
    In res results /\
    (classLabel res < 2)%nat /\
    sigmoid (tget Example.crowdedRaw (row res) (col res) (anchor res) 4) / 2
      <= score res
      <= sigmoid (tget Example.crowdedRaw (row res) (col res) (anchor res) 4).
Proof.
  eexists.
  exists (specDetection Example.threeAnchors Example.crowdedRaw
            Example.square 0 0 0).
  split; [apply crowded_extract |].
  split; [left; reflexivity |].
  destruct (@score_of_an_entry Example.threeAnchors Example.crowdedFirst
              Example.square None _
              (specDetection Example.threeAnchors Example.crowdedRaw
                 Example.square 0 0 0)
              (crowded_extract None) (or_introl eq_refl))
    as [raw [Hraw [_ Hwith]]].
  rewrite crowded_raw in Hraw.
  assert (Heq : Example.crowdedRaw = raw) by congruence.
  subst raw.
  destruct (Hwith eq_refl) as [Hlabel [_ Hrange]].
  split; [exact Hlabel | exact Hrange].
Defined.

(** X7, instance: three anchors and two classes on a 1 x 1 grid, threshold
    1/2; the entry of the first anchor. *)
Lemma scores_above_the_threshold_witness :
  0 < 1 / 2 /\
  exists results res,
    extractBoxes Example.threeAnchors Example.crowdedFirst Example.square
      (Some (1 / 2)) = Ok results /\
    In res results /\
    score res > 1 / 2 / 2.
Proof.
  assert (Ht : 0 < 1 / 2) by lra.
  split; [exact Ht |].
  assert (Hin : In (specDetection Example.threeAnchors Example.crowdedRaw
                      Example.square 0 0 0)
                   (specSlot Example.threeAnchors Example.crowdedRaw
                      Example.square (Some (1 / 2)) 0 0 0
                    ++ specSlot Example.threeAnchors Example.crowdedRaw
                         Example.square (Some (1 / 2)) 0 0 1
                    ++ specSlot Example.threeAnchors Example.crowdedRaw
                         Example.square (Some (1 / 2)) 0 0 2)).
  { apply in_or_app. left. unfold specSlot.
    rewrite (proj1 crowded_passes). left. reflexivity. }
  eexists.
  exists (specDetection Example.threeAnchors Example.crowdedRaw
            Example.square 0 0 0).
  split; [apply crowded_extract |].
  split; [exact Hin |].
  destruct (@scores_above_the_threshold Example.threeAnchors
              Example.crowdedFirst Example.square (1 / 2) _ _ Ht
              (crowded_extract (Some (1 / 2))) Hin)
    as [raw [_ [_ [_ Hwith]]]].
  exact (Hwith eq_refl).
Defined.


(** X9, instance: reshaped dimensions 32 x 16. *)
Lemma letterbox_correction_factors_witness :
  0 < 32 /\ 0 < 16 /\
  correctionFactorX (mkDimensions 32 16) = 1 /\
  correctionFactorY (mkDimensions 32 16) * 16 = Rmax 32 16.
Proof.
  assert (H32 : 0 < 32) by lra. assert (H16 : 0 < 16) by lra.
  split; [exact H32 |]. split; [exact H16 |].
  destruct (@letterbox_correction_factors (mkDimensions 32 16) H32 H16)
    as [_ [_ [HX [_ [_ HY]]]]].
  split; [apply HX; cbn [width height]; lra | exact HY].
Defined.

(** X11, instance: three anchors with seven values each on a 1 x 1 grid;
    the objectness of the second anchor is channel 11. *)
Lemma slots_are_channel_groups_witness :
  exists raw,
    rawOutput Example.threeAnchors Example.crowdedFirst = Ok raw /\
    tget raw 0 0 1 4 = tget Example.crowdedFirst 0 0 0 11.
Proof.
  destruct (@slots_are_channel_groups Example.threeAnchors
              Example.crowdedFirst 1 eq_refl) as [raw [Hraw Hlayout]].
  exists raw. split; [exact Hraw |].
  apply (Hlayout 0%nat 0%nat 1%nat 4%nat); cbn; lia.
Defined.



(** X16, instance: scale factors 1, 5, 1, 1 on a 1 x 1 grid. *)
Lemma total_loss_dominates_its_terms_witness :
  exists res,
    computeLoss (Example.loaded Example.quietOutput Example.oneAnchor)
      Example.quietOutput [] (mkDimensions 32 32) = Ok res /\
    0 <= scalarValue (totalLoss res) /\
    scalarValue (noObjectLoss res) <= scalarValue (totalLoss res) /\
    scalarValue (objectLoss res) <= scalarValue (totalLoss res) /\
    scalarValue (coordLoss res) <= scalarValue (totalLoss res) /\
    scalarValue (classLoss res) <= scalarValue (totalLoss res).
Proof.
  destruct (@quiet_computeLoss 32 32) as [res Hres];
    [apply Rmax_same_nonzero; lra |].
  exists res. split; [exact Hres |].
  apply (@total_loss_dominates_its_terms _
           (Example.loaded Example.quietOutput Example.oneAnchor)
           Example.quietOutput [] (mkDimensions 32 32)
           (mkTrainConfig 1 5 1 1) res);
    [reflexivity | simpl; lra | simpl; lra | simpl; lra | simpl; lra
     | exact Hres].
Defined.


(** X19, instance: three anchors and two classes on a 1 x 1 grid,
    threshold 1/2: all three slots are candidates. *)
Lemma best_candidate_is_detected_first_witness :
  exists first others,
    detect (Example.loaded Example.crowdedOutput Example.threeAnchors) tt
      (Example.withThreshold (1 / 2)) = Ok (first :: others) /\
    5 / 9 <= odScore first.
Proof.
  assert (Hin : In (specDetection Example.threeAnchors Example.crowdedRaw
                      Example.square 0 0 0)
                   (specSlot Example.threeAnchors Example.crowdedRaw
                      Example.square (Some (1 / 2)) 0 0 0
                    ++ specSlot Example.threeAnchors Example.crowdedRaw
                         Example.square (Some (1 / 2)) 0 0 1
                    ++ specSlot Example.threeAnchors Example.crowdedRaw
                         Example.square (Some (1 / 2)) 0 0 2)).
  { apply in_or_app. left. unfold specSlot.
    rewrite (proj1 crowded_passes). left. reflexivity. }
  destruct (@best_candidate_is_detected_first
              (Example.network Example.crowdedOutput)
              (Example.loaded Example.crowdedOutput Example.threeAnchors) tt
              (Example.withThreshold (1 / 2)) 32 tt Example.crowdedOutput
              Example.crowdedFirst _ eq_refl eq_refl eq_refl crowded_first
              (crowded_extract (Some (1 / 2))))
    as [first [others [Hdet [_ Hmax]]]].
  - intros Hnil. rewrite Hnil in Hin. exact Hin.
  - exists first, others. split; [exact Hdet |].
    pose proof (Hmax _ Hin) as Hle.
    pose proof (proj1 crowded_scores) as Hlo. lra.
Defined.
